(** * Metropolis-Hastings random walk sampler

    A shallow embedding of
    [littleballoffur/exploration_sampling/metropolishastingsrandomwalksampler.py]
    (class [MetropolisHastingsRandomWalkSampler]) and the properties of its
    walk, acceptance rule and stopping rule.

    The Python code mutates an object ([self._current_node],
    [self._sampled_nodes]), consumes the global random stream of the [random]
    module, prints to the console and raises exceptions.  All four effects are
    kept: programs are functions from a [World] to an [outcome] and the
    [World] reached, also when an exception is raised. *)

From Stdlib Require Import ZArith QArith.
From stdpp Require Import base gmap sets list strings.
Close Scope Q_scope.

(** ** Python floats

    [_do_a_step] computes with floats: [float(d)], [/], [**] and [<], and
    [random.uniform(0, 1)] returns a float.  Binary floating point has no
    exact embedding here, so the walker is written against the interface
    below; [E] is the type of the exponent [alpha].  The laws are the ones the
    acceptance rule relies on; [QFloat] further down is the executable
    instance with exact rationals.  [**] raises [OverflowError] when its
    result is out of range: [float_pow] is partial, as [/] is. *)

Class PyFloat (F E : Type) := {
  float_of_int : Z → F;                 (* float(n) *)
  float_truediv : F → F → option F;     (* x / y, None: ZeroDivisionError *)
  float_pow : F → E → option F;         (* x ** a, None: OverflowError *)
  float_lt : F → F → bool;              (* x < y *)
  float_le : F → F → bool;              (* x <= y *)
  float_zero : F;
  float_one : F;
  exp_zero : E;
  random_random : N → F;                (* random.random() from the raw bits *)
  random_random_nonneg r : float_le float_zero (random_random r) = true;
  random_random_lt_one r : float_lt (random_random r) float_one = true;
  float_lt_le_trans x y z :
    float_lt x y = true → float_le y z = true → float_lt x z = true;
  float_pow_zero x : float_pow x exp_zero = Some float_one;
  float_truediv_nonzero x d :
    d ≠ 0%Z → is_Some (float_truediv x (float_of_int d));
}.

(** ** Exceptions, outcomes and the world *)

Inductive exn :=
  | ValueError (msg : string)
  | IndexError
  | AttributeError
  | ZeroDivisionError
  | OverflowError
  | NetworkXError
  | InvalidConfiguration
  | NotFound
  | NoNeighbors.

Inductive outcome (A : Type) :=
  | Return (a : A)
  | Raise (e : exn)
  | OutOfFuel.
Arguments Return {A} a.
Arguments Raise {A} e.
Arguments OutOfFuel {A}.

(** [self._current_node] and [self._sampled_nodes]. *)
Record WalkState := mkWalk {
  current_node : Z;
  sampled_nodes : gset Z;
}.

(** The part of the interpreter state the sampler touches: the stream of the
    [random] module ([tape], read at [cursor]), the console, and the two
    attributes above, which do not exist before the first [sample]. *)
Record World := mkWorld {
  tape : nat → N;
  cursor : nat;
  stdout : list string;
  walk : option WalkState;
}.

Definition M (A : Type) : Type := World → outcome A * World.

Definition ret {A} (a : A) : M A := λ w, (Return a, w).

Definition raise {A} (e : exn) : M A := λ w, (Raise e, w).

Definition bind {A B} (c : M A) (k : A → M B) : M B := λ w,
  match c w with
  | (Return a, w') => k a w'
  | (Raise e, w') => (Raise e, w')
  | (OutOfFuel, w') => (OutOfFuel, w')
  end.

Notation "x <- c ;; k" := (bind c (λ x, k))
  (at level 100, c at next level, right associativity).
Notation "c ;;; k" := (bind c (λ _, k))
  (at level 100, right associativity).

Definition said (w : World) (s : string) : World :=
  mkWorld (tape w) (cursor w) (stdout w ++ [s]) (walk w).

Definition print (s : string) : M unit := λ w, (Return (), said w s).

Definition get_walk : M WalkState := λ w,
  match walk w with
  | Some ws => (Return ws, w)
  | None => (Raise AttributeError, w)
  end.

Definition set_walk (ws : WalkState) : M unit := λ w,
  (Return (), mkWorld (tape w) (cursor w) (stdout w) (Some ws)).

(** [len(self._sampled_nodes)] *)
Definition len_sampled_nodes : M Z :=
  ws <- get_walk ;; ret (Z.of_nat (size (sampled_nodes ws))).

(** ** The random module

    One call reads one cell of the stream and moves the cursor.
    [random.choice] of an empty sequence raises [IndexError] and reads
    nothing. *)

Definition advance (w : World) : World :=
  mkWorld (tape w) (S (cursor w)) (stdout w) (walk w).

Definition next_raw : M N := λ w, (Return (tape w (cursor w)), advance w).

Definition random_choice {A} (seq : list A) : M A :=
  match seq with
  | [] => raise IndexError
  | x :: _ => r <- next_raw ;; ret (nth (N.to_nat r mod length seq) seq x)
  end.

(** ** Graphs and the backend

    A graph is its adjacency: every node is a key, mapped to the list of its
    neighbours in iteration order. *)

Abbreviation Graph := (gmap Z (list Z)).

Definition has_edge (g : Graph) (u v : Z) : Prop :=
  ∃ l, g !! u = Some l ∧ v ∈ l.

(** An undirected graph lists every edge at both ends. *)
Definition undirected (g : Graph) : Prop :=
  map_Forall (λ u l, Forall (λ v, u ∈ default [] (g !! v)) l) g.

#[export] Instance undirected_dec (g : Graph) : Decision (undirected g).
Proof. unfold undirected. apply _. Defined.

(** [nx.neighbors(graph, node)], a call into networkx: the node has to be in
    the graph. *)
Definition nx_neighbors (g : Graph) (v : Z) : M (list Z) :=
  match g !! v with
  | Some l => ret l
  | None => raise NetworkXError
  end.

(** Modelled from the spec: [backend.get_number_of_nodes] is not in the
    sources; the Graph Capability gives [node_count(graph)], an integer >= 0
    that never fails. *)
Definition get_number_of_nodes (g : Graph) : Z := Z.of_nat (size g).

(** Modelled from the spec: [backend.get_degree] is not in the sources;
    [degree(graph, node)] is an integer >= 0 and fails with [NotFound] when
    the node is absent. *)
Definition get_degree (g : Graph) (v : Z) : M Z :=
  match g !! v with
  | Some l => ret (Z.of_nat (length l))
  | None => raise NotFound
  end.

(** Modelled from the spec: [backend.get_random_neighbor] is not in the
    sources; [random_neighbor(graph, node)] is one neighbour, one draw, and
    [NoNeighbors] when there is none. *)
Definition get_random_neighbor (g : Graph) (v : Z) : M Z :=
  match g !! v with
  | Some (x :: l) => random_choice (x :: l)
  | _ => raise NoNeighbors
  end.

(** Modelled from the spec: [backend.get_subgraph] is not in the sources;
    [induced_subgraph(graph, node_set)] is a new graph with exactly those
    nodes and the edges between them that the original has. *)
Definition get_subgraph (g : Graph) (nodes : gset Z) : Graph :=
  set_to_map (λ v, (v, filter (.∈ nodes) (default [] (g !! v)))) nodes.

(** ** The sampler *)

Section Sampler.
Context {F E : Type} `{!PyFloat F E}.

(** The constructor's arguments, kept on [self]. *)
Record Sampler := mkSampler {
  number_of_nodes : Z;
  seed : Z;
  alpha : E;
}.

(** [random.uniform(0, 1)] is [0 + (1 - 0) * random.random()]. *)
Definition random_uniform_0_1 : M F :=
  r <- next_raw ;; ret (random_random r).

(** Modelled from the spec: [Sampler._set_seed] is not in the sources; it
    starts the configured seed's random stream, here [generator seed]. *)
Definition _set_seed (generator : Z → nat → N) (self : Sampler) : M unit :=
  λ w, (Return (), mkWorld (generator (seed self)) 0 (stdout w) (walk w)).

Definition __init__ (generator : Z → nat → N)
    (number_of_nodes seed : Z) (alpha : E) : M Sampler :=
  let self := mkSampler number_of_nodes seed alpha in
  _set_seed generator self ;;; ret self.

(** Modelled from the spec: [Sampler._check_number_of_nodes] is not in the
    sources; [sample] fails with [InvalidConfiguration] if
    [target_node_count > node_count(graph)]. *)
Definition _check_number_of_nodes (self : Sampler) (graph : Graph) : M unit :=
  if (get_number_of_nodes graph <? number_of_nodes self)%Z
  then raise InvalidConfiguration
  else ret ().

(** Modelled from the spec: [Sampler._deploy_backend] is not in the
    sources; the one Graph Capability above is the backend. *)
Definition _deploy_backend (graph : Graph) : M unit := ret ().

Definition _create_initial_node_set (self : Sampler) (graph : Graph)
    (start_node : option Z) : M unit :=
  match start_node with
  | Some start_node =>
      if ((0 <=? start_node) && (start_node <? get_number_of_nodes graph))%Z
      then set_walk (mkWalk start_node {[ start_node ]})
      else raise (ValueError "Starting node index is out of range.")
  | None =>
      node <- random_choice (seqZ 0 (get_number_of_nodes graph)) ;;
      set_walk (mkWalk node {[ node ]})
  end.

Definition _do_a_step (self : Sampler) (graph : Graph) : M unit :=
  score <- random_uniform_0_1 ;;
  ws <- get_walk ;;
  nbrs <- nx_neighbors graph (current_node ws) ;;
  if (length nbrs =? 0)%nat then print "no neighbors"
  else
    new_node <- get_random_neighbor graph (current_node ws) ;;
    d_cur <- get_degree graph (current_node ws) ;;
    d_new <- get_degree graph new_node ;;
    match float_truediv (float_of_int d_cur) (float_of_int d_new) with
    | None => raise ZeroDivisionError
    | Some ratio =>
        match float_pow ratio (alpha self) with
        | None => raise OverflowError
        | Some ratio =>
            if float_lt score ratio
            then set_walk (mkWalk new_node (sampled_nodes ws ∪ {[ new_node ]}))
            else ret ()
        end
    end.

(** How the [while] loop of [sample] was left. *)
Inductive loop_exit := TargetReached | Stalled.

(** The [while] loop of [sample]; [stucking_iter] is its local counter.
    The loop need not end (a [max_stucking_iter] that is never met), hence
    the fuel: one unit per iteration. *)
Fixpoint sample_loop (fuel : nat) (self : Sampler) (graph : Graph)
    (max_stucking_iter stucking_iter : Z) : M loop_exit :=
  n <- len_sampled_nodes ;;
  if (n <? number_of_nodes self)%Z then
    match fuel with
    | O => λ w, (OutOfFuel, w)
    | S fuel =>
        prev_sample_node_nums <- len_sampled_nodes ;;
        print "starting a step" ;;;
        _do_a_step self graph ;;;
        new_sample_node_nums <- len_sampled_nodes ;;
        if (prev_sample_node_nums =? new_sample_node_nums)%Z then
          print "no new sample" ;;;
          let stucking_iter := (stucking_iter + 1)%Z in
          if (stucking_iter =? max_stucking_iter)%Z then ret Stalled
          else sample_loop fuel self graph max_stucking_iter stucking_iter
        else sample_loop fuel self graph max_stucking_iter 0%Z
    end
  else ret TargetReached.

Definition sample (fuel : nat) (self : Sampler) (graph : Graph)
    (max_stucking_iter : Z) (start_node : option Z) : M Graph :=
  _deploy_backend graph ;;;
  _check_number_of_nodes self graph ;;;
  _create_initial_node_set self graph start_node ;;;
  sample_loop fuel self graph max_stucking_iter 0%Z ;;;
  ws <- get_walk ;;
  ret (get_subgraph graph (sampled_nodes ws)).

End Sampler.

Arguments Sampler : clear implicits.

(** ** Exact rationals as floats

    The executable instance: a float is a rational, [alpha] an integer,
    [random.random()] the low 53 bits of the raw draw over [2^53], and a
    power is out of range when it is above the largest double. *)

Definition double_max : Q := inject_Z (2 ^ 1024 - 2 ^ 971).

Definition Q_pow (x : Q) (a : Z) : option Q :=
  if Qle_bool (Qpower x a) double_max then Some (Qpower x a) else None.

Definition Q_truediv (x y : Q) : option Q :=
  if Qeq_bool y 0 then None else Some (x / y)%Q.

Definition Q_lt (x y : Q) : bool := negb (Qle_bool y x).

Definition Q_random (r : N) : Q :=
  Z.of_N (r mod 2 ^ 53) # 2 ^ 53.

Lemma Q_random_nonneg r : Qle_bool 0 (Q_random r) = true.
Proof.
  apply Qle_bool_iff. unfold Q_random, Qle. cbn [Qnum Qden].
  generalize (r mod 2 ^ 53)%N. intros n.
  rewrite Z.mul_0_l, Z.mul_1_r. apply N2Z.is_nonneg.
Qed.

Lemma Q_random_lt_one r : Q_lt (Q_random r) 1 = true.
Proof.
  unfold Q_lt. apply negb_true_iff, not_true_iff_false.
  rewrite Qle_bool_iff. unfold Q_random, Qle. cbn [Qnum Qden].
  assert (r mod 2 ^ 53 < 2 ^ 53)%N as Hb
    by (apply N.mod_upper_bound; discriminate).
  revert Hb. generalize (r mod 2 ^ 53)%N. intros n Hn.
  rewrite !Z.mul_1_l, Z.mul_1_r.
  change (Z.pos (2 ^ 53)) with (Z.of_N (2 ^ 53)).
  intros Hle. apply N2Z.inj_le in Hle. by apply N.lt_nge in Hn.
Qed.

Lemma Q_lt_le_trans x y z :
  Q_lt x y = true → Qle_bool y z = true → Q_lt x z = true.
Proof.
  unfold Q_lt. rewrite !negb_true_iff, <- !not_true_iff_false, !Qle_bool_iff.
  intros Hxy Hyz Hzx. apply Hxy. by apply Qle_trans with z.
Qed.

Lemma Q_truediv_nonzero x d : d ≠ 0%Z → is_Some (Q_truediv x (inject_Z d)).
Proof.
  intros Hd. unfold Q_truediv.
  destruct (Qeq_bool (inject_Z d) 0) eqn:Heq; [|by eexists].
  apply Qeq_bool_iff in Heq. unfold Qeq in Heq. simpl in Heq. exfalso. lia.
Qed.

Lemma Q_pow_zero x : Q_pow x 0 = Some 1%Q.
Proof. reflexivity. Qed.

#[export] Instance QFloat : PyFloat Q Z := {|
  float_of_int := inject_Z;
  float_truediv := Q_truediv;
  float_pow := Q_pow;
  float_lt := Q_lt;
  float_le := Qle_bool;
  float_zero := 0%Q;
  float_one := 1%Q;
  exp_zero := 0%Z;
  random_random := Q_random;
  random_random_nonneg := Q_random_nonneg;
  random_random_lt_one := Q_random_lt_one;
  float_lt_le_trans := Q_lt_le_trans;
  float_pow_zero := Q_pow_zero;
  float_truediv_nonzero := Q_truediv_nonzero;
|}.

(** ** Sample inputs *)

(** A path 0 - 1 - 2 and an isolated node 3. *)
Definition path_graph : Graph :=
  {[ 0%Z := [1%Z]; 1%Z := [0%Z; 2%Z]; 2%Z := [1%Z]; 3%Z := [] ]}.

(** A triangle 0 - 1 - 2 and a far edge 3 - 4. *)
Definition triangle_graph : Graph :=
  {[ 0%Z := [1%Z; 2%Z]; 1%Z := [0%Z; 2%Z]; 2%Z := [0%Z; 1%Z];
     3%Z := [4%Z]; 4%Z := [3%Z] ]}.

(** A stream of raw draws: 0, 1, 2, ... *)
Definition counting_tape : nat → N := N.of_nat.

Definition fresh_world (t : nat → N) : World := mkWorld t 0 [] None.

Definition world_at (t : nat → N) (v : Z) (seen : gset Z) : World :=
  mkWorld t 0 [] (Some (mkWalk v seen)).

(** A stream given by its first cells, 0 afterwards. *)
Definition tape_of (cells : list N) : nat → N := λ i, nth i cells 0%N.

(** The raw draw whose score is one half. *)
Definition half : N := (2 ^ 52)%N.

Definition sampler3 : Sampler Z := mkSampler 3 42 1%Z.

(** At node 1 of the path, with a score of one half and the second
    neighbour as candidate. *)
Definition at_one : World := world_at (tape_of [half; 1%N]) 1 {[ 1%Z ]}.

(** At the isolated node of the path. *)
Definition at_isolated : World := world_at counting_tape 3 {[ 3%Z ]}.

(** The default sampler: 100 nodes, seed 42, exponent 1. *)
Definition sampler100 : Sampler Z := mkSampler 100 42 1%Z.

(** Four nodes asked for, of which the triangle has three. *)
Definition sampler4 : Sampler Z := mkSampler 4 42 1%Z.

(** An exponent for which already [2 ** alpha] is out of range. *)
Definition sampler_steep : Sampler Z := mkSampler 3 42 2000%Z.

(** A plain random walk: exponent 0. *)
Definition sampler_plain : Sampler Z := mkSampler 3 42 0%Z.

(** At node 0 of the triangle, all of it sampled. *)
Definition triangle_seen : World :=
  world_at counting_tape 0 {[ 0%Z; 1%Z; 2%Z ]}.

(** Lines 78 to 80 of [sample], what comes before its loop. *)
Definition sample_entry {F E} `{!PyFloat F E} (self : Sampler E)
    (graph : Graph) (start_node : option Z) : M unit :=
  _deploy_backend graph ;;;
  _check_number_of_nodes self graph ;;;
  _create_initial_node_set self graph start_node.

(** Two worlds in which the same numbers are still to be drawn: the random
    streams agree from their cursors on.  The cursors, the cells behind
    them, the console and the walk left by an earlier call may differ. *)
Definition same_stream (w1 w2 : World) : Prop :=
  ∀ i, tape w1 (cursor w1 + i) = tape w2 (cursor w2 + i).

(** Two such worlds with the same current node and sampled nodes. *)
Definition alike (w1 w2 : World) : Prop :=
  same_stream w1 w2 ∧ walk w1 = walk w2.

(** What a program has printed and how many numbers it has drawn, run in
    [w] and ended in [w']. *)
Definition trace (w w' : World) (out : list string) (k : nat) : Prop :=
  stdout w' = stdout w ++ out ∧ cursor w' = cursor w + k.

(** A program that, run in two worlds alike, ends the same way, having
    printed the same and drawn as many numbers, in two worlds alike. *)
Definition oblivious {A} (c : M A) : Prop :=
  ∀ w1 w2, alike w1 w2 →
    (c w1).1 = (c w2).1 ∧ alike (c w1).2 (c w2).2 ∧
    ∃ out k, trace w1 (c w1).2 out k ∧ trace w2 (c w2).2 out k.

(** A world later in another stream, with the console and the walk of an
    earlier call: from cell 5 on its stream is [counting_tape]. *)
Definition used_world : World :=
  mkWorld (λ i, N.of_nat (i - 5)) 5 ["sample graph nodes"]
    (Some (mkWalk 9 {[ 9%Z; 8%Z ]})).

(** The nodes are the indices [0 .. node_count - 1], as the range check on
    a given start node and the choice of a random one take them to be. *)
Definition indexed (g : Graph) : Prop :=
  Forall (λ v, is_Some (g !! v)) (seqZ 0 (get_number_of_nodes g)).

#[export] Instance indexed_dec (g : Graph) : Decision (indexed g).
Proof. unfold indexed. apply _. Defined.

(** An edge of the graph between two of the given nodes. *)
Definition walk_edge (g : Graph) (nodes : gset Z) (a b : Z) : Prop :=
  a ∈ nodes ∧ b ∈ nodes ∧ has_edge g a b.

(** What [k] iterations of the loop print at a node without neighbours. *)
Definition stuck_console (k : nat) : list string :=
  mjoin (replicate k ["starting a step"; "no neighbors"; "no new sample"]).

(** The world after [k] such iterations. *)
Definition stuck_world (w : World) (k : nat) : World :=
  mkWorld (tape w) (cursor w + k) (stdout w ++ stuck_console k) (walk w).

(** A world whose current node is not in the path graph. *)
Definition off_graph : World := world_at counting_tape 9 {[ 9%Z ]}.

(** ** What one step reads

    The score is read at the cursor and the index of the candidate one cell
    later. *)

Definition score_at {F E} `{!PyFloat F E} (w : World) : F :=
  random_random (tape w (cursor w)).

Definition candidate_at (nbrs : list Z) (w : World) : Z :=
  nth (N.to_nat (tape w (S (cursor w))) mod length nbrs) nbrs 0%Z.

(** [ratio] of [_do_a_step] for the degrees [d_cur] and [d_new], when both
    the division and the power give one. *)
Definition acceptance_ratio {F E} `{!PyFloat F E}
    (a : E) (d_cur d_new : nat) : option F :=
  r ← float_truediv (float_of_int (Z.of_nat d_cur))
                    (float_of_int (Z.of_nat d_new));
  float_pow r a.

(** The world after a step that came to its accept-or-reject test. *)
Definition after_move (w : World) (ws : WalkState) : World :=
  mkWorld (tape w) (S (S (cursor w))) (stdout w) (Some ws).

Definition accepted (ws : WalkState) (candidate : Z) : WalkState :=
  mkWalk candidate (sampled_nodes ws ∪ {[ candidate ]}).

(** The ratio can be computed along every edge of the graph: no division
    by zero and no power out of range. *)
Definition ratios_defined {F E} `{!PyFloat F E} (a : E) (g : Graph) : Prop :=
  map_Forall
    (λ u lu,
       Forall (λ v, is_Some (acceptance_ratio a (length lu)
                               (length (default [] (g !! v))))) lu) g.

#[export] Instance ratios_defined_dec {F E} `{!PyFloat F E} (a : E)
  (g : Graph) : Decision (ratios_defined a g).
Proof. unfold ratios_defined. apply _. Defined.

(** ** Basic facts *)

Section Facts.
Context {F E : Type} `{!PyFloat F E}.
Implicit Types (self : Sampler E) (graph : Graph) (w : World).
#[local] Arguments Nat.modulo : simpl never.

Lemma nth_default_irrel (l : list Z) i d d' :
  (i < length l)%nat → nth i l d = nth i l d'.
Proof. intros Hi. by apply nth_indep. Qed.

Lemma undirected_back graph u v l :
  undirected graph → graph !! u = Some l → v ∈ l →
  ∃ l', graph !! v = Some l' ∧ u ∈ l'.
Proof.
  intros Hg Hu Hv. specialize (Hg u l Hu). simpl in Hg.
  rewrite Forall_forall in Hg. specialize (Hg v Hv).
  destruct (graph !! v) as [l'|]; simpl in Hg.
  - by exists l'.
  - by apply elem_of_nil in Hg.
Qed.

Lemma candidate_at_elem nbrs w : nbrs ≠ [] → candidate_at nbrs w ∈ nbrs.
Proof.
  intros Hne. unfold candidate_at. apply list_elem_of_In, nth_In.
  apply Nat.mod_upper_bound. by destruct nbrs.
Qed.

(** *** Running the primitives *)

Lemma run_bind {A B} (c : M A) (k : A → M B) w a w' :
  c w = (Return a, w') → bind c k w = k a w'.
Proof. unfold bind. by intros ->. Qed.

Lemma run_bind_raise {A B} (c : M A) (k : A → M B) w e w' :
  c w = (Raise e, w') → bind c k w = (Raise e, w').
Proof. unfold bind. by intros ->. Qed.

Lemma run_bind_fuel {A B} (c : M A) (k : A → M B) w w' :
  c w = (OutOfFuel, w') → bind c k w = (OutOfFuel, w').
Proof. unfold bind. by intros ->. Qed.

Lemma run_uniform w :
  random_uniform_0_1 w = (Return (score_at w), advance w).
Proof. reflexivity. Qed.

Lemma run_get_walk w ws : walk w = Some ws → get_walk w = (Return ws, w).
Proof. unfold get_walk. by intros ->. Qed.

Lemma run_get_walk_none w :
  walk w = None → get_walk w = (Raise AttributeError, w).
Proof. unfold get_walk. by intros ->. Qed.

Lemma run_len w ws :
  walk w = Some ws →
  len_sampled_nodes w = (Return (Z.of_nat (size (sampled_nodes ws))), w).
Proof.
  intros Hw. unfold len_sampled_nodes.
  by rewrite (run_bind _ _ _ _ _ (run_get_walk w ws Hw)).
Qed.

Lemma run_len_none w :
  walk w = None → len_sampled_nodes w = (Raise AttributeError, w).
Proof.
  intros Hw. unfold len_sampled_nodes.
  by rewrite (run_bind_raise _ _ _ _ _ (run_get_walk_none w Hw)).
Qed.

Lemma run_neighbors graph v l w :
  graph !! v = Some l → nx_neighbors graph v w = (Return l, w).
Proof. unfold nx_neighbors. by intros ->. Qed.

Lemma run_degree graph v l w :
  graph !! v = Some l →
  get_degree graph v w = (Return (Z.of_nat (length l)), w).
Proof. unfold get_degree. by intros ->. Qed.

Lemma run_choice (seq : list Z) w :
  seq ≠ [] →
  random_choice seq w =
    (Return (nth (N.to_nat (tape w (cursor w)) mod length seq) seq 0%Z),
     advance w).
Proof.
  destruct seq as [|x l]; [done|]. intros _. unfold random_choice.
  rewrite (run_bind _ _ w (tape w (cursor w)) (advance w)) by done.
  unfold ret. do 2 f_equal. apply nth_default_irrel.
  by apply Nat.mod_upper_bound.
Qed.

Lemma run_random_neighbor graph v nbrs w :
  graph !! v = Some nbrs → nbrs ≠ [] →
  get_random_neighbor graph v (advance w) =
    (Return (candidate_at nbrs w), advance (advance w)).
Proof.
  intros Hv Hne. unfold get_random_neighbor. rewrite Hv.
  destruct nbrs as [|x l]; [done|]. by rewrite run_choice.
Qed.

(** The step at a node with neighbours, up to its accept-or-reject test. *)
Lemma step_with_neighbors self graph w ws nbrs lc ratio :
  walk w = Some ws →
  graph !! current_node ws = Some nbrs → nbrs ≠ [] →
  graph !! candidate_at nbrs w = Some lc →
  acceptance_ratio (alpha self) (length nbrs) (length lc) = Some ratio →
  _do_a_step self graph w =
    (Return (),
     after_move w (if float_lt (score_at w) ratio
                   then accepted ws (candidate_at nbrs w) else ws)).
Proof.
  intros Hw Hn Hne Hc Hr. unfold acceptance_ratio in Hr.
  destruct (float_truediv _ _) as [r|] eqn:Hdiv; [|done]. simpl in Hr.
  unfold _do_a_step.
  rewrite (run_bind _ _ _ _ _ (run_uniform w)).
  rewrite (run_bind _ _ _ _ _ (run_get_walk (advance w) ws Hw)).
  rewrite (run_bind _ _ _ _ _ (run_neighbors _ _ _ (advance w) Hn)).
  destruct (length nbrs =? 0)%nat eqn:Hlen.
  { apply Nat.eqb_eq in Hlen. by destruct nbrs. }
  rewrite (run_bind _ _ _ _ _ (run_random_neighbor _ _ _ w Hn Hne)).
  rewrite (run_bind _ _ _ _ _ (run_degree _ _ _ _ Hn)).
  rewrite (run_bind _ _ _ _ _ (run_degree _ _ _ _ Hc)).
  rewrite Hdiv, Hr. destruct (float_lt _ _); [done|].
  unfold ret, after_move, advance. simpl. by rewrite Hw.
Qed.

(** The step at a node with neighbours whose power is out of range. *)
Lemma step_overflows self graph w ws nbrs lc r :
  walk w = Some ws →
  graph !! current_node ws = Some nbrs → nbrs ≠ [] →
  graph !! candidate_at nbrs w = Some lc →
  float_truediv (float_of_int (Z.of_nat (length nbrs)))
    (float_of_int (Z.of_nat (length lc))) = Some r →
  float_pow r (alpha self) = None →
  _do_a_step self graph w = (Raise OverflowError, after_move w ws).
Proof.
  intros Hw Hn Hne Hc Hdiv Hpow. unfold _do_a_step.
  rewrite (run_bind _ _ _ _ _ (run_uniform w)).
  rewrite (run_bind _ _ _ _ _ (run_get_walk (advance w) ws Hw)).
  rewrite (run_bind _ _ _ _ _ (run_neighbors _ _ _ (advance w) Hn)).
  destruct (length nbrs =? 0)%nat eqn:Hlen.
  { apply Nat.eqb_eq in Hlen. by destruct nbrs. }
  rewrite (run_bind _ _ _ _ _ (run_random_neighbor _ _ _ w Hn Hne)).
  rewrite (run_bind _ _ _ _ _ (run_degree _ _ _ _ Hn)).
  rewrite (run_bind _ _ _ _ _ (run_degree _ _ _ _ Hc)).
  rewrite Hdiv, Hpow. unfold raise, after_move, advance. simpl.
  by rewrite Hw.
Qed.

(** In an undirected graph a neighbour has a neighbour, so the degrees can
    be divided. *)
Lemma division_defined graph u v nbrs :
  undirected graph → graph !! u = Some nbrs → v ∈ nbrs →
  ∃ lc r, graph !! v = Some lc ∧
    float_truediv (float_of_int (Z.of_nat (length nbrs)))
      (float_of_int (Z.of_nat (length lc))) = Some r.
Proof.
  intros Hg Hu Hv.
  destruct (undirected_back graph u v nbrs Hg Hu Hv) as (lc & Hlc & Hin).
  assert (Z.of_nat (length lc) ≠ 0%Z) as Hd.
  { destruct lc; [by apply elem_of_nil in Hin | simpl; lia]. }
  destruct (float_truediv_nonzero
    (float_of_int (Z.of_nat (length nbrs))) _ Hd) as [r Hr].
  by exists lc, r.
Qed.

(** The step at a node without neighbours: the score has been read. *)
Lemma step_without_neighbors self graph w ws :
  walk w = Some ws → graph !! current_node ws = Some [] →
  _do_a_step self graph w =
    (Return (),
     mkWorld (tape w) (S (cursor w)) (stdout w ++ ["no neighbors"])
       (Some ws)).
Proof.
  intros Hw Hn. unfold _do_a_step.
  rewrite (run_bind _ _ _ _ _ (run_uniform w)).
  rewrite (run_bind _ _ _ _ _ (run_get_walk (advance w) ws Hw)).
  rewrite (run_bind _ _ _ _ _ (run_neighbors _ _ _ (advance w) Hn)).
  unfold print, advance. simpl. by rewrite Hw.
Qed.

End Facts.

(** ** The step *)

Section Step.
Context {F E : Type} `{!PyFloat F E}.
Implicit Types (self : Sampler E) (graph : Graph) (w : World).


(** C7.  A step at a node with at least one neighbour: when the ratio
    [(d_cur / d_cand) ** alpha] has been computed, neither the division nor
    the power having raised, and is at least 1, the score, which is below 1,
    is below the ratio and the move is accepted; with [alpha = 0] the power
    is 1 whatever the quotient, so the ratio is 1 and, in an undirected
    graph, every step is an accepted move. *)
Theorem ratio_at_least_one_accepts self graph w ws nbrs :
  walk w = Some ws →
  graph !! current_node ws = Some nbrs → nbrs ≠ [] →
  let candidate := candidate_at nbrs w in
  let score : F := score_at w in
  (∀ lc ratio,
     graph !! candidate = Some lc →
     acceptance_ratio (alpha self) (length nbrs) (length lc) = Some ratio →
     float_le float_one ratio = true →
     float_lt score float_one = true ∧
     float_lt score ratio = true ∧
     _do_a_step self graph w =
       (Return (), after_move w (accepted ws candidate))) ∧
  (alpha self = exp_zero → undirected graph →
   ∃ lc,
     graph !! candidate = Some lc ∧
     acceptance_ratio (alpha self) (length nbrs) (length lc)
       = Some float_one ∧
     _do_a_step self graph w =
       (Return (), after_move w (accepted ws candidate))).
Proof.
  intros Hw Hn Hne candidate score. split.
  - intros lc ratio Hlc Hr Hge.
    assert (float_lt score ratio = true) as Hlt.
    { apply (float_lt_le_trans _ float_one); [|done].
      apply random_random_lt_one. }
    split; [apply random_random_lt_one|]. split; [done|].
    rewrite (step_with_neighbors self graph w ws nbrs lc ratio) by done.
    fold score. by rewrite Hlt.
  - intros Ha Hg.
    pose proof (candidate_at_elem nbrs w Hne) as Hin.
    destruct (division_defined graph _ _ _ Hg Hn Hin)
      as (lc & r & Hlc & Hdiv).
    assert (acceptance_ratio (alpha self) (length nbrs) (length lc)
            = Some float_one) as Hr.
    { unfold acceptance_ratio. rewrite Hdiv, Ha. apply float_pow_zero. }
    exists lc. split; [done|]. split; [done|].
    rewrite (step_with_neighbors self graph w ws nbrs lc float_one) by done.
    unfold score_at. by rewrite random_random_lt_one.
Qed.

(** C8, as the code has it.  Within a step the score is drawn first, from
    the cell at the cursor.  Then comes the check for neighbours: at a node
    without neighbours the step prints its message and returns with
    [_current_node] and [_sampled_nodes] as they were, one cell of the random
    stream consumed.  Otherwise the candidate is drawn next, from the
    following cell, and the accept-or-reject test uses the score drawn at the
    start. *)
Theorem step_draws_score_first self graph w ws :
  walk w = Some ws →
  (graph !! current_node ws = Some [] →
   _do_a_step self graph w =
     (Return (),
      mkWorld (tape w) (S (cursor w)) (stdout w ++ ["no neighbors"])
        (Some ws))) ∧
  (∀ nbrs lc ratio,
     graph !! current_node ws = Some nbrs → nbrs ≠ [] →
     let candidate :=
       nth (N.to_nat (tape w (S (cursor w))) mod length nbrs) nbrs 0%Z in
     let score : F := random_random (tape w (cursor w)) in
     graph !! candidate = Some lc →
     acceptance_ratio (alpha self) (length nbrs) (length lc) = Some ratio →
     _do_a_step self graph w =
       (Return (),
        mkWorld (tape w) (S (S (cursor w))) (stdout w)
          (Some (if float_lt score ratio
                 then mkWalk candidate (sampled_nodes ws ∪ {[ candidate ]})
                 else ws)))).
Proof.
  intros Hw. split.
  - by apply step_without_neighbors.
  - intros nbrs lc ratio Hn Hne candidate score Hlc Hr.
    by rewrite (step_with_neighbors self graph w ws nbrs lc ratio).
Qed.

End Step.

(** ** The loop *)

Section Loop.
Context {F E : Type} `{!PyFloat F E}.
Implicit Types (self : Sampler E) (graph : Graph) (w : World).
#[local] Arguments Nat.modulo : simpl never.

(** Whatever a step does, it leaves a walk that has lost no node and whose
    current node is sampled if it was; the stream is only read. *)
Lemma step_preserves self graph w ws :
  walk w = Some ws →
  ∃ ws', walk (_do_a_step self graph w).2 = Some ws' ∧
    sampled_nodes ws ⊆ sampled_nodes ws' ∧
    (current_node ws ∈ sampled_nodes ws →
     current_node ws' ∈ sampled_nodes ws') ∧
    tape (_do_a_step self graph w).2 = tape w.
Proof.
  intros Hw.
  unfold _do_a_step, bind, random_uniform_0_1, bind, next_raw, get_walk,
    nx_neighbors, get_random_neighbor, get_degree, random_choice, bind,
    next_raw, ret, raise, print, set_walk, said, advance.
  simpl. rewrite Hw. simpl.
  repeat (case_match; simplify_eq/=; try rewrite Hw);
    first [ by exists ws
          | eexists; split; [reflexivity|]; simpl;
            split; [apply union_subseteq_l|];
            split; [intros _; apply elem_of_union_r;
                    by apply elem_of_singleton | done] ].
Qed.

Lemma step_keeps_walk self graph w ws :
  walk w = Some ws → is_Some (walk (_do_a_step self graph w).2).
Proof.
  intros Hw. destruct (step_preserves self graph w ws Hw) as (ws' & -> & _).
  by eexists.
Qed.

Lemma sample_loop_done fuel self graph max s w ws :
  walk w = Some ws →
  (number_of_nodes self ≤ Z.of_nat (size (sampled_nodes ws)))%Z →
  sample_loop fuel self graph max s w = (Return TargetReached, w).
Proof.
  intros Hw Hn.
  destruct fuel; cbn [sample_loop];
    rewrite (run_bind _ _ _ _ _ (run_len w ws Hw));
    by rewrite (proj2 (Z.ltb_ge _ _) Hn).
Qed.

Lemma sample_loop_O self graph max s w ws :
  walk w = Some ws →
  (Z.of_nat (size (sampled_nodes ws)) < number_of_nodes self)%Z →
  sample_loop 0 self graph max s w = (OutOfFuel, w).
Proof.
  intros Hw Hn. cbn [sample_loop].
  rewrite (run_bind _ _ _ _ _ (run_len w ws Hw)).
  by rewrite (proj2 (Z.ltb_lt _ _) Hn).
Qed.

Lemma sample_loop_no_walk fuel self graph max s w :
  walk w = None →
  sample_loop fuel self graph max s w = (Raise AttributeError, w).
Proof.
  intros Hw.
  destruct fuel; cbn [sample_loop];
    by rewrite (run_bind_raise _ _ _ _ _ (run_len_none w Hw)).
Qed.

(** One iteration of the loop, below the target. *)
Lemma sample_loop_S fuel self graph max s w ws :
  walk w = Some ws →
  (Z.of_nat (size (sampled_nodes ws)) < number_of_nodes self)%Z →
  sample_loop (S fuel) self graph max s w =
    match _do_a_step self graph (said w "starting a step") with
    | (Return _, w2) =>
        match walk w2 with
        | Some ws2 =>
            if (Z.of_nat (size (sampled_nodes ws)) =?
                Z.of_nat (size (sampled_nodes ws2)))%Z
            then
              if (s + 1 =? max)%Z
              then (Return Stalled, said w2 "no new sample")
              else sample_loop fuel self graph max (s + 1)
                     (said w2 "no new sample")
            else sample_loop fuel self graph max 0 w2
        | None => (Raise AttributeError, w2)
        end
    | (Raise e, w2) => (Raise e, w2)
    | (OutOfFuel, w2) => (OutOfFuel, w2)
    end.
Proof.
  intros Hw Hn. cbn [sample_loop].
  rewrite (run_bind _ _ _ _ _ (run_len w ws Hw)).
  rewrite (proj2 (Z.ltb_lt _ _) Hn).
  rewrite (run_bind _ _ _ _ _ (run_len w ws Hw)).
  rewrite (run_bind _ _ w () (said w "starting a step")) by done.
  destruct (_do_a_step self graph (said w "starting a step"))
    as [[[]|e|] w2] eqn:Hstep.
  - rewrite (run_bind _ _ _ _ _ Hstep).
    destruct (walk w2) as [ws2|] eqn:Hw2.
    + rewrite (run_bind _ _ _ _ _ (run_len w2 ws2 Hw2)).
      destruct (_ =? _)%Z; [|done].
      rewrite (run_bind _ _ w2 () (said w2 "no new sample")) by done.
      by destruct (_ =? _)%Z.
    + by rewrite (run_bind_raise _ _ _ _ _ (run_len_none w2 Hw2)).
  - by rewrite (run_bind_raise _ _ _ _ _ Hstep).
  - by rewrite (run_bind_fuel _ _ _ _ Hstep).
Qed.

Lemma step_never_out_of_fuel self graph w :
  (_do_a_step self graph w).1 ≠ OutOfFuel.
Proof.
  unfold _do_a_step, bind, random_uniform_0_1, bind, next_raw, get_walk,
    nx_neighbors, get_random_neighbor, get_degree, random_choice, bind,
    next_raw, ret, raise, print, set_walk, said, advance.
  simpl. by repeat (case_match; simplify_eq/=).
Qed.

(** The loop keeps what a step keeps, whatever the fuel and the way it
    ends. *)
Lemma loop_preserves fuel self graph max s w ws :
  walk w = Some ws →
  ∃ ws', walk (sample_loop fuel self graph max s w).2 = Some ws' ∧
    sampled_nodes ws ⊆ sampled_nodes ws' ∧
    (current_node ws ∈ sampled_nodes ws →
     current_node ws' ∈ sampled_nodes ws') ∧
    tape (sample_loop fuel self graph max s w).2 = tape w.
Proof.
  revert s w ws. induction fuel as [|fuel IH]; intros s w ws Hw;
    destruct (Z.lt_ge_cases (Z.of_nat (size (sampled_nodes ws)))
                (number_of_nodes self)) as [Hlt|Hge].
  - rewrite (sample_loop_O _ _ _ _ w ws Hw Hlt). by exists ws.
  - rewrite (sample_loop_done _ _ _ _ _ w ws Hw Hge). by exists ws.
  - rewrite (sample_loop_S _ _ _ _ _ w ws Hw Hlt).
    destruct (step_preserves self graph (said w "starting a step") ws Hw)
      as (ws2 & Hw2 & Hsub & Hcur & Htape).
    destruct (_do_a_step self graph (said w "starting a step"))
      as [[[]|e|] w2]; simpl in Hw2, Htape;
      [|exists ws2; simpl; by rewrite Hw2..].
    rewrite Hw2. destruct (_ =? _)%Z.
    + destruct (_ =? _)%Z; [by exists ws2|].
      destruct (IH (s + 1)%Z (said w2 "no new sample") ws2 Hw2)
        as (ws3 & Hw3 & Hsub3 & Hcur3 & Htape3).
      exists ws3. rewrite Htape3. simpl. repeat split; try done.
      * by transitivity (sampled_nodes ws2).
      * auto.
    + destruct (IH 0%Z w2 ws2 Hw2) as (ws3 & Hw3 & Hsub3 & Hcur3 & Htape3).
      exists ws3. rewrite Htape3. repeat split; try done.
      * by transitivity (sampled_nodes ws2).
      * auto.
  - rewrite (sample_loop_done _ _ _ _ _ w ws Hw Hge). by exists ws.
Qed.

(** One more unit of fuel shows a walk that has lost no node. *)
Lemma loop_next_observation fuel self graph max s w ws :
  walk w = Some ws →
  ∃ a b, walk (sample_loop fuel self graph max s w).2 = Some a ∧
    walk (sample_loop (S fuel) self graph max s w).2 = Some b ∧
    sampled_nodes a ⊆ sampled_nodes b.
Proof.
  revert s w ws. induction fuel as [|fuel IH]; intros s w ws Hw;
    destruct (Z.lt_ge_cases (Z.of_nat (size (sampled_nodes ws)))
                (number_of_nodes self)) as [Hlt|Hge].
  - destruct (loop_preserves 1 self graph max s w ws Hw)
      as (b & Hb & Hsub & _).
    rewrite (sample_loop_O _ _ _ _ w ws Hw Hlt). by exists ws, b.
  - rewrite !(sample_loop_done _ _ _ _ _ w ws Hw Hge). by exists ws, ws.
  - rewrite (sample_loop_S (S fuel) _ _ _ _ w ws Hw Hlt).
    rewrite (sample_loop_S fuel _ _ _ _ w ws Hw Hlt).
    destruct (step_preserves self graph (said w "starting a step") ws Hw)
      as (ws2 & Hw2 & _).
    destruct (_do_a_step self graph (said w "starting a step"))
      as [[[]|e|] w2]; simpl in Hw2;
      [|exists ws2, ws2; simpl; by rewrite Hw2..].
    rewrite Hw2. destruct (_ =? _)%Z.
    + destruct (_ =? _)%Z; [by exists ws2, ws2|].
      by apply (IH _ _ ws2).
    + by apply (IH _ _ ws2).
  - rewrite !(sample_loop_done _ _ _ _ _ w ws Hw Hge). by exists ws, ws.
Qed.

(** With a positive [max_stucking_iter] the loop ends: every iteration
    either adds a node, and there are fewer than [number_of_nodes] to add, or
    moves the counter one closer to [max_stucking_iter]. *)
Lemma loop_terminates fuel self graph max s w :
  (0 ≤ s < max)%Z →
  (∀ ws, walk w = Some ws →
     ((number_of_nodes self - Z.of_nat (size (sampled_nodes ws))) * max - s
      ≤ Z.of_nat fuel)%Z) →
  (sample_loop fuel self graph max s w).1 ≠ OutOfFuel.
Proof.
  revert s w. induction fuel as [|fuel IH]; intros s w Hs Hfuel;
    (destruct (walk w) as [ws|] eqn:Hw;
      [|by rewrite (sample_loop_no_walk _ _ _ _ _ w Hw)]);
    specialize (Hfuel ws eq_refl);
    (destruct (Z.lt_ge_cases (Z.of_nat (size (sampled_nodes ws)))
                (number_of_nodes self)) as [Hlt|Hge];
      [|by rewrite (sample_loop_done _ _ _ _ _ w ws Hw Hge)]).
  - exfalso. nia.
  - rewrite (sample_loop_S _ _ _ _ _ w ws Hw Hlt).
    destruct (step_preserves self graph (said w "starting a step") ws Hw)
      as (ws2 & Hw2 & Hsub & _).
    pose proof (step_never_out_of_fuel self graph
                  (said w "starting a step")) as Hno.
    destruct (_do_a_step self graph (said w "starting a step"))
      as [[[]|e|] w2]; simpl in Hw2, Hno; [|done..].
    rewrite Hw2. apply subseteq_size in Hsub.
    destruct (_ =? _)%Z eqn:Hsize.
    + destruct (s + 1 =? max)%Z eqn:Hmax; [done|].
      apply Z.eqb_neq in Hmax. apply Z.eqb_eq in Hsize.
      apply IH; [lia|]. simpl. intros ws0 Hws0.
      rewrite Hw2 in Hws0. injection Hws0 as <-. nia.
    + apply Z.eqb_neq in Hsize.
      apply IH; [lia|]. intros ws0 Hws0.
      rewrite Hw2 in Hws0. injection Hws0 as <-. nia.
Qed.

End Loop.

(** ** The whole of [sample] *)

Section Sample.
Context {F E : Type} `{!PyFloat F E}.
Implicit Types (self : Sampler E) (graph : Graph) (w : World).
#[local] Arguments Nat.modulo : simpl never.

Lemma entry_run self graph start w :
  sample_entry self graph start w =
    if (get_number_of_nodes graph <? number_of_nodes self)%Z
    then (Raise InvalidConfiguration, w)
    else _create_initial_node_set self graph start w.
Proof.
  unfold sample_entry, _deploy_backend, _check_number_of_nodes, bind, ret.
  destruct (_ <? _)%Z; [done|].
  by destruct (_create_initial_node_set self graph start w) as [[[]|?|] ?].
Qed.

Lemma init_explicit self graph s w :
  _create_initial_node_set self graph (Some s) w =
    if ((0 <=? s) && (s <? get_number_of_nodes graph))%Z
    then (Return (),
          mkWorld (tape w) (cursor w) (stdout w) (Some (mkWalk s {[ s ]})))
    else (Raise (ValueError "Starting node index is out of range."), w).
Proof. unfold _create_initial_node_set. by destruct (_ && _). Qed.

Lemma init_post self graph start w w0 :
  _create_initial_node_set self graph start w = (Return (), w0) →
  ∃ v, walk w0 = Some (mkWalk v {[ v ]}) ∧
    (0 ≤ v < get_number_of_nodes graph)%Z ∧
    tape w0 = tape w ∧ stdout w0 = stdout w ∧
    (∀ s, start = Some s → v = s ∧ cursor w0 = cursor w).
Proof.
  destruct start as [s|].
  - rewrite init_explicit. destruct (_ && _) eqn:Hrange; [|done].
    intros [= <-]. exists s. simpl.
    apply andb_true_iff in Hrange as [H0 Hn].
    apply Z.leb_le in H0. apply Z.ltb_lt in Hn.
    split; [done|]. split; [lia|]. split; [done|]. split; [done|].
    by intros ? [= ->].
  - unfold _create_initial_node_set.
    destruct (seqZ 0 (get_number_of_nodes graph)) as [|x l] eqn:Hseq.
    { by unfold random_choice, bind, raise. }
    rewrite (run_bind _ _ _ _ _ (run_choice (x :: l) w ltac:(done))).
    assert (nth (N.to_nat (tape w (cursor w)) mod length (x :: l))
              (x :: l) 0%Z ∈ seqZ 0 (get_number_of_nodes graph)) as Hin.
    { rewrite Hseq. apply list_elem_of_In, nth_In.
      by apply Nat.mod_upper_bound. }
    revert Hin. generalize (nth (N.to_nat (tape w (cursor w))
                                 mod length (x :: l)) (x :: l) 0%Z).
    intros v Hin [= <-]. exists v. split; [done|].
    apply elem_of_seqZ in Hin. split; [lia|]. by repeat split.
Qed.

Lemma sample_run fuel self graph max start w :
  sample fuel self graph max start w =
    match sample_entry self graph start w with
    | (Return _, w0) =>
        match sample_loop fuel self graph max 0 w0 with
        | (Return _, wf) =>
            match walk wf with
            | Some ws => (Return (get_subgraph graph (sampled_nodes ws)), wf)
            | None => (Raise AttributeError, wf)
            end
        | (Raise e, wf) => (Raise e, wf)
        | (OutOfFuel, wf) => (OutOfFuel, wf)
        end
    | (Raise e, w0) => (Raise e, w0)
    | (OutOfFuel, w0) => (OutOfFuel, w0)
    end.
Proof.
  unfold sample, sample_entry, bind, _deploy_backend, ret, get_walk.
  by repeat case_match; simplify_eq.
Qed.

(** The subgraph has the given nodes, each with its neighbours among them. *)
Lemma lookup_get_subgraph graph (nodes : gset Z) v l :
  get_subgraph graph nodes !! v = Some l ↔
  v ∈ nodes ∧ l = filter (.∈ nodes) (default [] (graph !! v)).
Proof.
  unfold get_subgraph. rewrite lookup_set_to_map.
  - split.
    + by intros (y & Hy & [= -> <-]).
    + intros [Hv ->]. by exists v.
  - by intros y y' _ _ [=].
Qed.

Lemma dom_get_subgraph graph (nodes : gset Z) :
  dom (get_subgraph graph nodes) = nodes.
Proof.
  apply set_eq. intros v. rewrite elem_of_dom. split.
  - intros [l Hl]. by apply lookup_get_subgraph in Hl as [? _].
  - intros Hv. eexists. by apply lookup_get_subgraph.
Qed.

Lemma has_edge_get_subgraph graph (nodes : gset Z) u v :
  has_edge (get_subgraph graph nodes) u v ↔
  u ∈ nodes ∧ v ∈ nodes ∧ has_edge graph u v.
Proof.
  unfold has_edge. split.
  - intros (l & Hl & Hv). apply lookup_get_subgraph in Hl as [Hu ->].
    apply list_elem_of_filter in Hv as [Hvn Hv].
    destruct (graph !! u) as [lu|]; simpl in Hv.
    + repeat split; try done. by exists lu.
    + by apply elem_of_nil in Hv.
  - intros (Hu & Hv & lu & Hlu & Hin). eexists. split.
    + by apply lookup_get_subgraph.
    + rewrite Hlu. simpl. by apply list_elem_of_filter.
Qed.

Lemma sample_world fuel self graph max start w w0 :
  sample_entry self graph start w = (Return (), w0) →
  (sample fuel self graph max start w).2 =
  (sample_loop fuel self graph max 0 w0).2.
Proof.
  intros Hentry. rewrite sample_run, Hentry.
  by repeat case_match.
Qed.

Lemma returned_graph_is_subgraph fuel self graph max start w g wf :
  sample fuel self graph max start w = (Return g, wf) →
  ∃ ws, walk (sample fuel self graph max start w).2 = Some ws ∧
    g = get_subgraph graph (sampled_nodes ws).
Proof.
  intros Hret. rewrite Hret. revert Hret. rewrite sample_run.
  repeat case_match; try done. intros [= <- <-]. by eexists.
Qed.

(** C2.  In an iteration of the loop that found [_sampled_nodes] below the
    target and whose step returned: if the number of sampled nodes did not
    change, the counter goes up by one and the loop is left (stalled) exactly
    if it now equals [max_stucking_iter], and goes on with the new counter
    otherwise; if the number changed, the loop goes on with the counter at 0.
    Only that number is looked at: a step that accepted a move to a node
    sampled before leaves it unchanged and so counts as a stall.  A run whose
    loop is left stalled returns the induced subgraph of the sampled nodes,
    it raises nothing. *)
Theorem stall_counter_rule :
  (∀ fuel self graph max s w ws w2 ws2,
     walk w = Some ws →
     (Z.of_nat (size (sampled_nodes ws)) < number_of_nodes self)%Z →
     _do_a_step self graph (said w "starting a step") = (Return (), w2) →
     walk w2 = Some ws2 →
     (size (sampled_nodes ws2) = size (sampled_nodes ws) →
      ((s + 1)%Z = max →
       sample_loop (S fuel) self graph max s w =
         (Return Stalled, said w2 "no new sample")) ∧
      ((s + 1)%Z ≠ max →
       sample_loop (S fuel) self graph max s w =
         sample_loop fuel self graph max (s + 1)
           (said w2 "no new sample"))) ∧
     (size (sampled_nodes ws2) ≠ size (sampled_nodes ws) →
      sample_loop (S fuel) self graph max s w =
        sample_loop fuel self graph max 0 w2) ∧
     (∀ c, c ∈ sampled_nodes ws → ws2 = accepted ws c →
      size (sampled_nodes ws2) = size (sampled_nodes ws))) ∧
  (∀ fuel self graph max start w w0 wf,
     sample_entry self graph start w = (Return (), w0) →
     sample_loop fuel self graph max 0 w0 = (Return Stalled, wf) →
     ∃ ws, walk wf = Some ws ∧
       sample fuel self graph max start w =
         (Return (get_subgraph graph (sampled_nodes ws)), wf)).
Proof.
  split.
  - intros fuel self graph max s w ws w2 ws2 Hw Hlt Hstep Hw2.
    pose proof (sample_loop_S fuel self graph max s w ws Hw Hlt) as Hloop.
    rewrite Hstep, Hw2 in Hloop. split; [|split].
    + intros Hsize. rewrite Hsize, Z.eqb_refl in Hloop.
      split; intros Hmax; rewrite Hloop.
      * by rewrite (proj2 (Z.eqb_eq _ _) Hmax).
      * by rewrite (proj2 (Z.eqb_neq _ _) Hmax).
    + intros Hsize. rewrite Hloop.
      assert (Z.of_nat (size (sampled_nodes ws)) ≠
              Z.of_nat (size (sampled_nodes ws2))) as Hne by lia.
      by rewrite (proj2 (Z.eqb_neq _ _) Hne).
    + intros c Hc ->. unfold accepted. simpl. f_equal.
      rewrite (comm_L (∪)). apply subseteq_union_1_L.
      by apply singleton_subseteq_l.
  - intros fuel self graph max start w w0 wf Hentry Hloop.
    destruct (init_post self graph start w w0) as (v & Hw0 & _).
    { rewrite entry_run in Hentry. by destruct (_ <? _)%Z. }
    destruct (loop_preserves fuel self graph max 0 w0 _ Hw0)
      as (ws & Hws & _).
    rewrite Hloop in Hws. simpl in Hws. exists ws. split; [done|].
    by rewrite sample_run, Hentry, Hloop, Hws.
Qed.

(** C3.  Once [sample] has initialised the walk, at every number of
    iterations of its loop: the current node is one of the sampled nodes, the
    sampled nodes contain the ones of the initialisation, and one iteration
    more loses none of them, so that their number does not go down. *)
Theorem walk_invariants fuel self graph max start w w0 :
  sample_entry self graph start w = (Return (), w0) →
  ∃ ws0 a b,
    walk w0 = Some ws0 ∧
    current_node ws0 ∈ sampled_nodes ws0 ∧
    walk (sample fuel self graph max start w).2 = Some a ∧
    walk (sample (S fuel) self graph max start w).2 = Some b ∧
    current_node a ∈ sampled_nodes a ∧
    sampled_nodes ws0 ⊆ sampled_nodes a ∧
    sampled_nodes a ⊆ sampled_nodes b ∧
    size (sampled_nodes a) ≤ size (sampled_nodes b).
Proof.
  intros Hentry.
  destruct (init_post self graph start w w0) as (v & Hw0 & _).
  { rewrite entry_run in Hentry. by destruct (_ <? _)%Z. }
  rewrite !(sample_world _ _ _ _ _ _ _ Hentry).
  destruct (loop_preserves fuel self graph max 0 w0 _ Hw0)
    as (a & Ha & Hsub & Hcur & _).
  destruct (loop_next_observation fuel self graph max 0 w0 _ Hw0)
    as (a' & b & Ha' & Hb & Hab).
  rewrite Ha in Ha'. injection Ha' as <-.
  exists (mkWalk v {[ v ]}), a, b. simpl in *.
  assert (v ∈ ({[ v ]} : gset Z)) as Hv by by apply elem_of_singleton.
  repeat split; try done.
  - by apply Hcur.
  - by apply subseteq_size.
Qed.

(** C4.  When [sample] returns a graph, its loop has ended, on the target or
    stalled, and the graph is the induced subgraph of the sampled nodes at
    that point: its nodes are exactly the sampled nodes, and it has an edge
    exactly where the original graph has one between two sampled nodes. *)
Theorem sample_returns_induced_subgraph fuel self graph max start w g wf :
  sample fuel self graph max start w = (Return g, wf) →
  ∃ w0 exit ws,
    sample_entry self graph start w = (Return (), w0) ∧
    sample_loop fuel self graph max 0 w0 = (Return exit, wf) ∧
    walk wf = Some ws ∧
    g = get_subgraph graph (sampled_nodes ws) ∧
    dom g = sampled_nodes ws ∧
    ∀ u v, has_edge g u v ↔
      u ∈ sampled_nodes ws ∧ v ∈ sampled_nodes ws ∧ has_edge graph u v.
Proof.
  rewrite sample_run.
  destruct (sample_entry self graph start w) as [[[]|?|] w0] eqn:Hentry;
    [|done..].
  destruct (sample_loop fuel self graph max 0 w0) as [[exit|?|] wf']
    eqn:Hloop; [|done..].
  destruct (walk wf') as [ws|] eqn:Hws; [|done].
  intros [= <- <-]. exists w0, exit, ws.
  split; [done|]. split; [done|]. split; [done|]. split; [done|].
  split; [apply dom_get_subgraph|].
  intros u v. apply has_edge_get_subgraph.
Qed.

(** C5, as the code has it.  With a start node given,
    [_create_initial_node_set] raises the out-of-range [ValueError], leaving
    the world as it was, if the start node is outside
    [0 <= start_node < node_count], and otherwise makes it the current node
    and the only sampled node.  [sample] with a start node outside that
    range fails before any step: with that [ValueError] if the number of
    nodes asked for is within the graph's, and with the node-count error,
    which is checked first, if it is not. *)
Theorem start_node_validation self graph s w :
  let in_range := ((0 <=? s) && (s <? get_number_of_nodes graph))%Z in
  _create_initial_node_set self graph (Some s) w =
    (if in_range
     then (Return (),
           mkWorld (tape w) (cursor w) (stdout w) (Some (mkWalk s {[ s ]})))
     else (Raise (ValueError "Starting node index is out of range."), w)) ∧
  (in_range = false →
   ∀ fuel max,
     sample fuel self graph max (Some s) w =
       if (get_number_of_nodes graph <? number_of_nodes self)%Z
       then (Raise InvalidConfiguration, w)
       else (Raise (ValueError "Starting node index is out of range."), w)).
Proof.
  intros in_range. split; [apply init_explicit|].
  intros Hout fuel max. rewrite sample_run, entry_run, init_explicit.
  unfold in_range in Hout. rewrite Hout.
  by destruct (get_number_of_nodes graph <? number_of_nodes self)%Z.
Qed.

(** C6.  When more nodes are asked for than the graph has, [sample] raises
    the node-count error in the world it was called in: nothing was printed,
    nothing drawn, and the walk state neither read nor written. *)
Theorem too_many_nodes_rejected fuel self graph max start w :
  (get_number_of_nodes graph < number_of_nodes self)%Z →
  sample fuel self graph max start w = (Raise InvalidConfiguration, w).
Proof.
  intros Hn. rewrite sample_run, entry_run.
  by rewrite (proj2 (Z.ltb_lt _ _) Hn).
Qed.

(** C10.  When [sample] gets past its checks and has chosen its initial
    node, every graph it returns has that node, the start node if one was
    given.  If at most one node is asked for, the loop body is never run:
    [sample] returns, whatever the fuel, the induced subgraph of the initial
    node alone, in the world the initialisation left.  And with a positive
    [max_stucking_iter] the call ends. *)
Theorem sample_contains_initial_node self graph max start w w0 :
  sample_entry self graph start w = (Return (), w0) →
  ∃ v,
    walk w0 = Some (mkWalk v {[ v ]}) ∧ stdout w0 = stdout w ∧
    (∀ s, start = Some s → v = s) ∧
    (∀ fuel g wf,
       sample fuel self graph max start w = (Return g, wf) → v ∈ dom g) ∧
    ((number_of_nodes self ≤ 1)%Z →
     dom (get_subgraph graph {[ v ]}) = {[ v ]} ∧
     ∀ fuel, sample fuel self graph max start w =
               (Return (get_subgraph graph {[ v ]}), w0)) ∧
    ((0 < max)%Z →
     (sample (Z.to_nat (number_of_nodes self * max)) self graph max start w).1
       ≠ OutOfFuel).
Proof.
  intros Hentry.
  destruct (init_post self graph start w w0) as (v & Hw0 & _ & _ & Hout & Hs).
  { rewrite entry_run in Hentry. by destruct (_ <? _)%Z. }
  exists v. split; [done|]. split; [done|]. split; [by intros s [-> _]%Hs|].
  split; [|split].
  - intros fuel g wf Hret.
    apply returned_graph_is_subgraph in Hret as (ws & Hws & ->).
    rewrite dom_get_subgraph.
    destruct (loop_preserves fuel self graph max 0 w0 _ Hw0)
      as (ws' & Hws' & Hsub & _).
    rewrite (sample_world _ _ _ _ _ _ _ Hentry) in Hws.
    rewrite Hws in Hws'. injection Hws' as <-.
    apply Hsub. simpl. by apply elem_of_singleton.
  - intros Hn. split; [apply dom_get_subgraph|]. intros fuel.
    rewrite sample_run, Hentry.
    rewrite (sample_loop_done fuel self graph max 0 w0 _ Hw0).
    + by rewrite Hw0.
    + cbn [sampled_nodes]. rewrite size_singleton. lia.
  - intros Hmax. rewrite sample_run, Hentry.
    pose proof (loop_terminates (Z.to_nat (number_of_nodes self * max))
                  self graph max 0 w0) as Hterm.
    destruct (sample_loop _ self graph max 0 w0) as [[exit|?|] wf];
      [by destruct (walk wf)|done|].
    exfalso. apply Hterm; [lia| |done]. intros ws Hws. rewrite Hw0 in Hws.
    injection Hws as <-. cbn [sampled_nodes]. rewrite size_singleton. nia.
Qed.

End Sample.

(** ** Determinism *)

Section Determinism.
Context {F E : Type} `{!PyFloat F E}.
Implicit Types (self : Sampler E) (graph : Graph) (w : World).

Lemma trace_nil w : trace w w [] 0.
Proof. unfold trace. by rewrite app_nil_r, Nat.add_0_r. Qed.

Lemma trace_same w w' :
  stdout w' = stdout w → cursor w' = cursor w → trace w w' [] 0.
Proof. intros Ho Hc. unfold trace. by rewrite Ho, Hc, app_nil_r, Nat.add_0_r. Qed.

Lemma trace_app w w' w'' out k out' k' :
  trace w w' out k → trace w' w'' out' k' →
  trace w w'' (out ++ out') (k + k').
Proof.
  intros [Ho Hc] [Ho' Hc']. unfold trace.
  rewrite Ho', Ho, Hc', Hc. split; [by rewrite (assoc_L (++))|lia].
Qed.

Lemma obl_ret {A} (a : A) : oblivious (ret a).
Proof.
  intros w1 w2 Hw. split; [done|]. split; [done|].
  exists [], 0. split; apply trace_nil.
Qed.

Lemma obl_raise {A} e : oblivious (@raise A e).
Proof.
  intros w1 w2 Hw. split; [done|]. split; [done|].
  exists [], 0. split; apply trace_nil.
Qed.

Lemma obl_bind {A B} (c : M A) (k : A → M B) :
  oblivious c → (∀ a, oblivious (k a)) → oblivious (bind c k).
Proof.
  intros Hc Hk w1 w2 Hw.
  destruct (Hc w1 w2 Hw) as (Ho & Hw' & out & n & Ht1 & Ht2).
  unfold bind. destruct (c w1) as [o1 w1'], (c w2) as [o2 w2'].
  simpl in Ho, Hw', Ht1, Ht2. subst o2.
  destruct o1 as [a| |]; [|by split; [|split; [|exists out, n]]..].
  destruct (Hk a w1' w2' Hw') as (Ho' & Hw'' & out' & n' & Ht1' & Ht2').
  split; [done|]. split; [done|]. exists (out ++ out'), (n + n').
  split; by eapply trace_app.
Qed.

Lemma obl_print msg : oblivious (print msg).
Proof.
  intros w1 w2 Hw. split; [done|]. split; [done|].
  exists [msg], 0. unfold trace. simpl. by rewrite !Nat.add_0_r.
Qed.

Lemma obl_get_walk : oblivious get_walk.
Proof.
  intros w1 w2 Hw. pose proof Hw as [_ Heq].
  unfold get_walk. rewrite Heq.
  destruct (walk w2); (split; [done|]; split; [done|]);
    exists [], 0; split; apply trace_nil.
Qed.

Lemma obl_set_walk ws : oblivious (set_walk ws).
Proof.
  intros w1 w2 [Hs _]. split; [done|]. split; [by split|].
  exists [], 0. split; by apply trace_same.
Qed.

Lemma obl_len : oblivious len_sampled_nodes.
Proof.
  apply obl_bind; [apply obl_get_walk|]. intros ws. apply obl_ret.
Qed.

Lemma obl_next_raw : oblivious next_raw.
Proof.
  intros w1 w2 [Hs Hwalk]. unfold next_raw, advance. simpl. split.
  - pose proof (Hs 0) as H0. rewrite !Nat.add_0_r in H0. by rewrite H0.
  - split.
    + split; [|done]. intros i. simpl.
      pose proof (Hs (S i)) as HS. by rewrite !Nat.add_succ_r in HS.
    + exists [], 1. unfold trace. simpl. rewrite !app_nil_r, !Nat.add_1_r.
      by repeat split.
Qed.

Lemma obl_choice {A} (seq : list A) : oblivious (random_choice seq).
Proof.
  destruct seq as [|x l]; [apply obl_raise|].
  apply obl_bind; [apply obl_next_raw|]. intros r. apply obl_ret.
Qed.

Lemma obl_step self graph : oblivious (_do_a_step self graph).
Proof.
  unfold _do_a_step.
  apply obl_bind.
  { apply obl_bind; [apply obl_next_raw|]. intros r. apply obl_ret. }
  intros score. apply obl_bind; [apply obl_get_walk|].
  intros ws. apply obl_bind.
  { unfold nx_neighbors.
    destruct (graph !! _); [apply obl_ret|apply obl_raise]. }
  intros nbrs. destruct (_ =? _)%nat; [apply obl_print|].
  apply obl_bind.
  { unfold get_random_neighbor.
    destruct (graph !! _) as [[|x l]|];
      [apply obl_raise|apply obl_choice|apply obl_raise]. }
  intros new_node. apply obl_bind.
  { unfold get_degree.
    destruct (graph !! _); [apply obl_ret|apply obl_raise]. }
  intros d_cur. apply obl_bind.
  { unfold get_degree.
    destruct (graph !! _); [apply obl_ret|apply obl_raise]. }
  intros d_new. destruct (float_truediv _ _) as [r|]; [|apply obl_raise].
  destruct (float_pow r _) as [ratio|]; [|apply obl_raise].
  destruct (float_lt _ _); [apply obl_set_walk|apply obl_ret].
Qed.

Lemma obl_loop fuel self graph max s :
  oblivious (sample_loop fuel self graph max s).
Proof.
  revert s. induction fuel as [|fuel IH]; intros s; cbn [sample_loop];
    (apply obl_bind; [apply obl_len|]); intros n;
    (destruct (_ <? _)%Z; [|apply obl_ret]).
  - intros w1 w2 Hw. split; [done|]. split; [done|].
    exists [], 0. split; apply trace_nil.
  - apply obl_bind; [apply obl_len|]. intros prev.
    apply obl_bind; [apply obl_print|]. intros _.
    apply obl_bind; [apply obl_step|]. intros _.
    apply obl_bind; [apply obl_len|]. intros new.
    destruct (_ =? _)%Z; [|apply IH].
    apply obl_bind; [apply obl_print|]. intros _.
    destruct (_ =? _)%Z; [apply obl_ret|apply IH].
Qed.

(** The initialisation needs less: whatever walk was left, it raises in
    both worlds, which stay as they are, or sets up the same walk. *)
Lemma init_same_stream self graph start w1 w2 :
  same_stream w1 w2 →
  (∃ e,
     _create_initial_node_set self graph start w1 = (Raise e, w1) ∧
     _create_initial_node_set self graph start w2 = (Raise e, w2)) ∨
  (∃ w1' w2' k,
     _create_initial_node_set self graph start w1 = (Return (), w1') ∧
     _create_initial_node_set self graph start w2 = (Return (), w2') ∧
     alike w1' w2' ∧ trace w1 w1' [] k ∧ trace w2 w2' [] k).
Proof.
  intros Hs. destruct start as [s|].
  - rewrite !init_explicit. destruct (_ && _).
    + right. eexists _, _, 0. split; [done|]. split; [done|].
      split; [by split|]. split; by apply trace_same.
    + left. by eexists.
  - unfold _create_initial_node_set.
    destruct (seqZ 0 (get_number_of_nodes graph)) as [|x l] eqn:Hseq.
    { left. by exists IndexError. }
    right.
    rewrite (run_bind _ _ _ _ _ (run_choice (x :: l) w1 ltac:(done))).
    rewrite (run_bind _ _ _ _ _ (run_choice (x :: l) w2 ltac:(done))).
    pose proof (Hs 0) as H0. rewrite !Nat.add_0_r in H0. rewrite H0.
    eexists _, _, 1. split; [done|]. split; [done|]. split.
    + split; [|done]. intros i. simpl.
      pose proof (Hs (S i)) as HS. by rewrite !Nat.add_succ_r in HS.
    + unfold trace. simpl. rewrite !app_nil_r, !Nat.add_1_r.
      by repeat split.
Qed.

(** C9.  Two runs of [sample] on the same sampler (number of nodes, seed,
    exponent), graph, [max_stucking_iter] and start node, in two worlds in
    which the same random numbers are still to be drawn, end the same way at
    every number of iterations of the loop: the same outcome, so the same
    graph when one is returned, the same current node and sampled nodes, the
    same lines printed and as many numbers drawn.  Nothing else of the two
    worlds counts: not the walk an earlier call left, not the console, not
    what was drawn before.  (If the call raises in its checks, the walk is
    the one left before in each world.) *)
Theorem same_inputs_same_run fuel self graph max start w1 w2 :
  same_stream w1 w2 →
  (sample fuel self graph max start w1).1 =
  (sample fuel self graph max start w2).1 ∧
  same_stream (sample fuel self graph max start w1).2
    (sample fuel self graph max start w2).2 ∧
  (∃ out k,
     trace w1 (sample fuel self graph max start w1).2 out k ∧
     trace w2 (sample fuel self graph max start w2).2 out k) ∧
  (walk (sample fuel self graph max start w1).2 =
   walk (sample fuel self graph max start w2).2 ∨
   ∃ e,
     sample fuel self graph max start w1 = (Raise e, w1) ∧
     sample fuel self graph max start w2 = (Raise e, w2)).
Proof.
  intros Hs.
  assert (∀ w, sample fuel self graph max start w =
    match sample_entry self graph start w with
    | (Return _, w0) =>
        (sample_loop fuel self graph max 0 ;;;
         ws <- get_walk ;; ret (get_subgraph graph (sampled_nodes ws))) w0
    | (Raise e, w0) => (Raise e, w0)
    | (OutOfFuel, w0) => (OutOfFuel, w0)
    end) as Hrun.
  { intros w. unfold sample, sample_entry, bind, _deploy_backend, ret.
    by repeat case_match; simplify_eq. }
  rewrite !Hrun, !entry_run.
  destruct (_ <? _)%Z.
  { simpl. split; [done|]. split; [done|].
    split; [exists [], 0; split; apply trace_nil|]. right. by eexists. }
  destruct (init_same_stream self graph start w1 w2 Hs)
    as [(e & -> & ->)|(w1' & w2' & k & -> & -> & Hw' & Ht1 & Ht2)].
  { simpl. split; [done|]. split; [done|].
    split; [exists [], 0; split; apply trace_nil|]. right. by eexists. }
  assert (oblivious
    (sample_loop fuel self graph max 0 ;;;
     ws <- get_walk ;; ret (get_subgraph graph (sampled_nodes ws))))
    as Hobl.
  { apply obl_bind; [apply obl_loop|]. intros _.
    apply obl_bind; [apply obl_get_walk|]. intros ws. apply obl_ret. }
  destruct (Hobl w1' w2' Hw') as (Ho & [Hs' Hwalk] & out & n & Ht1' & Ht2').
  split; [done|]. split; [done|]. split; [|by left].
  exists ([] ++ out), (k + n). split; by eapply trace_app.
Qed.

End Determinism.

(** ** Runs on the sample inputs *)



(** A rejected move: from node 0 of the path the candidate is node 1, of
    degree 2, the ratio one half, and a score of one half is not below it. *)
Example step_rejects_at_equal_score :
  _do_a_step sampler3 path_graph
    (world_at (tape_of [half; 0%N]) 0 {[ 0%Z ]}) =
  (Return (),
   mkWorld (tape_of [half; 0%N]) 2 [] (Some (mkWalk 0 {[ 0%Z ]}))).
Proof. vm_compute. reflexivity. Qed.

Lemma ratio_at_least_one_accepts_witness :
  _do_a_step sampler3 path_graph at_one =
    (Return (), after_move at_one (accepted (mkWalk 1 {[ 1%Z ]}) 2)) ∧
  _do_a_step sampler_plain path_graph at_one =
    (Return (), after_move at_one (accepted (mkWalk 1 {[ 1%Z ]}) 2)).
Proof.
  assert (undirected path_graph) as Hg
    by (apply (bool_decide_unpack _); vm_compute; exact I).
  assert (path_graph !! 1%Z = Some [0%Z; 2%Z]) as Hn
    by (vm_compute; reflexivity).
  assert (path_graph !! 2%Z = Some [1%Z]) as Hc
    by (vm_compute; reflexivity).
  split.
  - exact (proj2 (proj2 (proj1
      (ratio_at_least_one_accepts (F:=Q) sampler3 path_graph at_one
         (mkWalk 1 {[ 1%Z ]}) [0%Z; 2%Z] eq_refl Hn ltac:(discriminate))
      [1%Z] (2#1)%Q Hc eq_refl eq_refl))).
  - destruct (proj2
      (ratio_at_least_one_accepts (F:=Q) sampler_plain path_graph at_one
         (mkWalk 1 {[ 1%Z ]}) [0%Z; 2%Z] eq_refl Hn ltac:(discriminate))
      eq_refl Hg) as (lc & _ & _ & Hstep).
    exact Hstep.
Defined.

(** C8 as stated fails: the step at the isolated node of the path, which has
    no neighbour, has moved the cursor of the random stream. *)
Lemma zero_neighbor_step_draws :
  walk at_isolated = Some (mkWalk 3 {[ 3%Z ]}) ∧
  path_graph !! 3%Z = Some [] ∧
  cursor (_do_a_step sampler3 path_graph at_isolated).2 ≠ cursor at_isolated.
Proof.
  split; [reflexivity|]. split; [vm_compute; reflexivity|].
  vm_compute. discriminate.
Qed.

Lemma step_draws_score_first_witness :
  _do_a_step sampler3 path_graph at_isolated =
    (Return (),
     mkWorld counting_tape 1 ["no neighbors"] (Some (mkWalk 3 {[ 3%Z ]}))).
Proof.
  assert (path_graph !! 3%Z = Some []) as Hn by (vm_compute; reflexivity).
  exact (proj1 (step_draws_score_first (F:=Q) sampler3 path_graph at_isolated
                  (mkWalk 3 {[ 3%Z ]}) eq_refl) Hn).
Defined.

(** C5 as stated fails: with the default 100 nodes asked of the four-node
    path and a start node of 7, outside the range, [sample] raises the
    node-count error, not the out-of-range one. *)
Lemma out_of_range_start_behind_node_count :
  ¬ (0 ≤ 7 < get_number_of_nodes path_graph)%Z ∧
  (sample 10 sampler100 path_graph 50 (Some 7%Z)
     (fresh_world counting_tape)).1 = Raise InvalidConfiguration ∧
  (sample 10 sampler100 path_graph 50 (Some 7%Z)
     (fresh_world counting_tape)).1
    ≠ Raise (ValueError "Starting node index is out of range.").
Proof.
  split; [vm_compute; intros [_ H]; discriminate H|].
  split; [vm_compute; reflexivity|]. vm_compute. discriminate.
Qed.

Lemma start_node_validation_witness :
  _create_initial_node_set sampler3 path_graph (Some 7%Z)
    (fresh_world counting_tape) =
    (Raise (ValueError "Starting node index is out of range."),
     fresh_world counting_tape) ∧
  ∀ fuel max,
    sample fuel sampler3 path_graph max (Some 7%Z)
      (fresh_world counting_tape) =
    (Raise (ValueError "Starting node index is out of range."),
     fresh_world counting_tape).
Proof.
  destruct (start_node_validation (F:=Q) sampler3 path_graph 7%Z
              (fresh_world counting_tape)) as [Hinit Hsample].
  split; [exact Hinit|].
  intros fuel max. exact (Hsample eq_refl fuel max).
Defined.

Lemma too_many_nodes_rejected_witness :
  (get_number_of_nodes path_graph < number_of_nodes sampler100)%Z ∧
  sample 10 sampler100 path_graph 50 (Some 7%Z) (fresh_world counting_tape) =
    (Raise InvalidConfiguration, fresh_world counting_tape).
Proof.
  assert (get_number_of_nodes path_graph < number_of_nodes sampler100)%Z
    as Hn by (vm_compute; reflexivity).
  split; [exact Hn|].
  exact (too_many_nodes_rejected (F:=Q) 10 sampler100 path_graph 50
           (Some 7%Z) (fresh_world counting_tape) Hn).
Defined.

Lemma stall_counter_rule_witness :
  sample_loop 1 sampler4 triangle_graph 2 1 triangle_seen =
    (Return Stalled,
     mkWorld counting_tape 2 ["starting a step"; "no new sample"]
       (Some (mkWalk 2 {[ 0%Z; 1%Z; 2%Z ]}))) ∧
  ∃ ws,
    walk (sample_loop 100 sampler4 triangle_graph 2 0
            (world_at counting_tape 0 {[ 0%Z ]})).2 = Some ws ∧
    sample 100 sampler4 triangle_graph 2 (Some 0%Z)
      (fresh_world counting_tape) =
      (Return (get_subgraph triangle_graph (sampled_nodes ws)),
       (sample_loop 100 sampler4 triangle_graph 2 0
          (world_at counting_tape 0 {[ 0%Z ]})).2).
Proof.
  destruct (stall_counter_rule (F:=Q) (E:=Z)) as [Hiter Hrun].
  split.
  - assert (_do_a_step sampler4 triangle_graph
              (said triangle_seen "starting a step") =
            (Return (),
             mkWorld counting_tape 2 ["starting a step"]
               (Some (mkWalk 2 {[ 0%Z; 1%Z; 2%Z ]})))) as Hstep
      by (vm_compute; reflexivity).
    assert (Z.of_nat (size ({[ 0%Z; 1%Z; 2%Z ]} : gset Z))
            < number_of_nodes sampler4)%Z as Hlt
      by (vm_compute; reflexivity).
    exact (proj1 (proj1 (Hiter 0 sampler4 triangle_graph 2%Z 1%Z
                           triangle_seen _ _ _ eq_refl Hlt Hstep eq_refl)
                    ltac:(vm_compute; reflexivity)) eq_refl).
  - assert (sample_entry sampler4 triangle_graph (Some 0%Z)
              (fresh_world counting_tape) =
            (Return (), world_at counting_tape 0 {[ 0%Z ]})) as Hentry
      by (vm_compute; reflexivity).
    assert (sample_loop 100 sampler4 triangle_graph 2 0
              (world_at counting_tape 0 {[ 0%Z ]}) =
            (Return Stalled,
             (sample_loop 100 sampler4 triangle_graph 2 0
                (world_at counting_tape 0 {[ 0%Z ]})).2)) as Hloop
      by (vm_compute; reflexivity).
    exact (Hrun 100 sampler4 triangle_graph 2%Z (Some 0%Z) _ _ _
             Hentry Hloop).
Defined.

Lemma walk_invariants_witness :
  ∃ ws0 a b,
    walk (world_at counting_tape 0 {[ 0%Z ]}) = Some ws0 ∧
    current_node ws0 ∈ sampled_nodes ws0 ∧
    walk (sample 1 sampler3 path_graph 50 (Some 0%Z)
            (fresh_world counting_tape)).2 = Some a ∧
    walk (sample 2 sampler3 path_graph 50 (Some 0%Z)
            (fresh_world counting_tape)).2 = Some b ∧
    current_node a ∈ sampled_nodes a ∧
    sampled_nodes ws0 ⊆ sampled_nodes a ∧
    sampled_nodes a ⊆ sampled_nodes b ∧
    size (sampled_nodes a) ≤ size (sampled_nodes b).
Proof.
  assert (sample_entry sampler3 path_graph (Some 0%Z)
            (fresh_world counting_tape) =
          (Return (), world_at counting_tape 0 {[ 0%Z ]})) as Hentry
    by (vm_compute; reflexivity).
  exact (walk_invariants (F:=Q) 1 sampler3 path_graph 50 (Some 0%Z)
           (fresh_world counting_tape) (world_at counting_tape 0 {[ 0%Z ]})
           Hentry).
Defined.

Lemma sample_returns_induced_subgraph_witness :
  let g := get_subgraph path_graph {[ 0%Z; 1%Z; 2%Z ]} in
  let wf := mkWorld counting_tape 4 ["starting a step"; "starting a step"]
              (Some (mkWalk 2 {[ 0%Z; 1%Z; 2%Z ]})) in
  sample 100 sampler3 path_graph 50 (Some 0%Z) (fresh_world counting_tape)
    = (Return g, wf) ∧
  ∃ w0 exit ws,
    sample_entry sampler3 path_graph (Some 0%Z) (fresh_world counting_tape)
      = (Return (), w0) ∧
    sample_loop 100 sampler3 path_graph 50 0 w0 = (Return exit, wf) ∧
    walk wf = Some ws ∧
    g = get_subgraph path_graph (sampled_nodes ws) ∧
    dom g = sampled_nodes ws ∧
    ∀ u v, has_edge g u v ↔
      u ∈ sampled_nodes ws ∧ v ∈ sampled_nodes ws ∧ has_edge path_graph u v.
Proof.
  intros g wf.
  assert (sample 100 sampler3 path_graph 50 (Some 0%Z)
            (fresh_world counting_tape) = (Return g, wf)) as Hret
    by (vm_compute; reflexivity).
  split; [exact Hret|].
  exact (sample_returns_induced_subgraph (F:=Q) 100 sampler3 path_graph 50
           (Some 0%Z) (fresh_world counting_tape) g wf Hret).
Defined.

Lemma sample_contains_initial_node_witness :
  ∃ v,
    walk (world_at counting_tape 0 {[ 0%Z ]}) = Some (mkWalk v {[ v ]}) ∧
    stdout (world_at counting_tape 0 {[ 0%Z ]})
      = stdout (fresh_world counting_tape) ∧
    (∀ s, Some 0%Z = Some s → v = s) ∧
    (∀ fuel g wf,
       sample fuel sampler3 path_graph 50 (Some 0%Z)
         (fresh_world counting_tape) = (Return g, wf) → v ∈ dom g) ∧
    ((number_of_nodes sampler3 ≤ 1)%Z →
     dom (get_subgraph path_graph {[ v ]}) = {[ v ]} ∧
     ∀ fuel, sample fuel sampler3 path_graph 50 (Some 0%Z)
               (fresh_world counting_tape) =
               (Return (get_subgraph path_graph {[ v ]}),
                world_at counting_tape 0 {[ 0%Z ]})) ∧
    ((0 < 50)%Z →
     (sample (Z.to_nat (number_of_nodes sampler3 * 50)) sampler3 path_graph
        50 (Some 0%Z) (fresh_world counting_tape)).1 ≠ OutOfFuel).
Proof.
  assert (sample_entry sampler3 path_graph (Some 0%Z)
            (fresh_world counting_tape) =
          (Return (), world_at counting_tape 0 {[ 0%Z ]})) as Hentry
    by (vm_compute; reflexivity).
  exact (sample_contains_initial_node (F:=Q) sampler3 path_graph 50
           (Some 0%Z) (fresh_world counting_tape)
           (world_at counting_tape 0 {[ 0%Z ]}) Hentry).
Defined.

(** With one node asked for, no step is taken: the result is the start node
    alone and the stream has not been read. *)
Example single_node_sample :
  sample 0 (mkSampler 1 42 1%Z) path_graph 50 (Some 1%Z)
    (fresh_world counting_tape) =
  (Return (get_subgraph path_graph {[ 1%Z ]}),
   world_at counting_tape 1 {[ 1%Z ]}).
Proof. vm_compute. reflexivity. Qed.

(** A step alone does tell such worlds apart: in the same stream, it
    raises where no walk was set up and returns where one was. *)
Example step_depends_on_walk :
  same_stream (fresh_world counting_tape) at_isolated ∧
  (_do_a_step sampler3 path_graph (fresh_world counting_tape)).1
    = Raise AttributeError ∧
  (_do_a_step sampler3 path_graph at_isolated).1 = Return ().
Proof.
  split; [by intros i|]. split; vm_compute; reflexivity.
Qed.

Lemma same_inputs_same_run_witness :
  (sample 100 sampler3 path_graph 50 (Some 0%Z) (fresh_world counting_tape)).1
  = (sample 100 sampler3 path_graph 50 (Some 0%Z) used_world).1 ∧
  same_stream
    (sample 100 sampler3 path_graph 50 (Some 0%Z)
       (fresh_world counting_tape)).2
    (sample 100 sampler3 path_graph 50 (Some 0%Z) used_world).2 ∧
  (∃ out k,
     trace (fresh_world counting_tape)
       (sample 100 sampler3 path_graph 50 (Some 0%Z)
          (fresh_world counting_tape)).2 out k ∧
     trace used_world
       (sample 100 sampler3 path_graph 50 (Some 0%Z) used_world).2 out k) ∧
  (walk (sample 100 sampler3 path_graph 50 (Some 0%Z)
           (fresh_world counting_tape)).2 =
   walk (sample 100 sampler3 path_graph 50 (Some 0%Z) used_world).2 ∨
   ∃ e,
     sample 100 sampler3 path_graph 50 (Some 0%Z) (fresh_world counting_tape)
       = (Raise e, fresh_world counting_tape) ∧
     sample 100 sampler3 path_graph 50 (Some 0%Z) used_world
       = (Raise e, used_world)).
Proof.
  assert (same_stream (fresh_world counting_tape) used_world) as Hs.
  { intros i. unfold fresh_world, used_world, counting_tape. simpl.
    f_equal. lia. }
  exact (same_inputs_same_run (F:=Q) 100 sampler3 path_graph 50 (Some 0%Z)
           (fresh_world counting_tape) used_world Hs).
Defined.

(** ** The step, case by case *)

Section StepCases.
Context {F E : Type} `{!PyFloat F E}.
Implicit Types (self : Sampler E) (graph : Graph) (w : World).

Lemma step_no_walk self graph w :
  walk w = None →
  _do_a_step self graph w = (Raise AttributeError, advance w).
Proof.
  intros Hw. unfold _do_a_step.
  rewrite (run_bind _ _ _ _ _ (run_uniform w)).
  by rewrite (run_bind_raise _ _ _ _ _ (run_get_walk_none (advance w) Hw)).
Qed.

(** Every way a step from an initialised walk can go. *)
Lemma step_cases self graph w ws :
  walk w = Some ws →
  match graph !! current_node ws with
  | None => _do_a_step self graph w = (Raise NetworkXError, advance w)
  | Some [] =>
      _do_a_step self graph w =
        (Return (), said (advance w) "no neighbors")
  | Some nbrs =>
      match graph !! candidate_at nbrs w with
      | None =>
          _do_a_step self graph w = (Raise NotFound, advance (advance w))
      | Some lc =>
          match float_truediv (float_of_int (Z.of_nat (length nbrs)))
                  (float_of_int (Z.of_nat (length lc))) with
          | None =>
              _do_a_step self graph w =
                (Raise ZeroDivisionError, advance (advance w))
          | Some quotient =>
              match float_pow quotient (alpha self) with
              | None =>
                  _do_a_step self graph w =
                    (Raise OverflowError, advance (advance w))
              | Some ratio =>
                  _do_a_step self graph w =
                    (Return (),
                     after_move w (if float_lt (score_at w) ratio
                                   then accepted ws (candidate_at nbrs w)
                                   else ws))
              end
          end
      end
  end.
Proof.
  intros Hw. destruct (graph !! current_node ws) as [nbrs|] eqn:Hn.
  - destruct nbrs as [|x l].
    { rewrite (step_without_neighbors self graph w ws Hw Hn).
      unfold said, advance. simpl. by rewrite Hw. }
    set (nbrs := x :: l) in *.
    assert (nbrs ≠ []) as Hne by done.
    destruct (graph !! candidate_at nbrs w) as [lc|] eqn:Hc.
    + destruct (float_truediv _ _) as [quotient|] eqn:Hdiv.
      * destruct (float_pow quotient (alpha self)) as [ratio|] eqn:Hpow.
        -- apply (step_with_neighbors self graph w ws nbrs lc ratio);
             try done.
           unfold acceptance_ratio. by rewrite Hdiv.
        -- rewrite (step_overflows self graph w ws nbrs lc quotient)
             by done.
           unfold after_move, advance. simpl. by rewrite Hw.
      * unfold _do_a_step.
        rewrite (run_bind _ _ _ _ _ (run_uniform w)).
        rewrite (run_bind _ _ _ _ _ (run_get_walk (advance w) ws Hw)).
        rewrite (run_bind _ _ _ _ _ (run_neighbors _ _ _ (advance w) Hn)).
        change (length nbrs =? 0)%nat with false. cbv iota.
        rewrite (run_bind _ _ _ _ _ (run_random_neighbor _ _ _ w Hn Hne)).
        rewrite (run_bind _ _ _ _ _ (run_degree _ _ _ _ Hn)).
        rewrite (run_bind _ _ _ _ _ (run_degree _ _ _ _ Hc)).
        by rewrite Hdiv.
    + unfold _do_a_step.
      rewrite (run_bind _ _ _ _ _ (run_uniform w)).
      rewrite (run_bind _ _ _ _ _ (run_get_walk (advance w) ws Hw)).
      rewrite (run_bind _ _ _ _ _ (run_neighbors _ _ _ (advance w) Hn)).
      change (length nbrs =? 0)%nat with false. cbv iota.
      rewrite (run_bind _ _ _ _ _ (run_random_neighbor _ _ _ w Hn Hne)).
      rewrite (run_bind _ _ _ _ _ (run_degree _ _ _ _ Hn)).
      apply run_bind_raise. unfold get_degree. by rewrite Hc.
  - unfold _do_a_step.
    rewrite (run_bind _ _ _ _ _ (run_uniform w)).
    rewrite (run_bind _ _ _ _ _ (run_get_walk (advance w) ws Hw)).
    apply run_bind_raise. unfold nx_neighbors. by rewrite Hn.
Qed.

End StepCases.

(** ** More on the step *)

Section StepMore.
Context {F E : Type} `{!PyFloat F E}.
Implicit Types (self : Sampler E) (graph : Graph) (w : World).

(** What a step from an initialised walk leaves: the stream is read, one or
    two cells of it, and the walk is as before or has moved to the candidate
    and added it. *)
Lemma step_shape self graph w ws :
  walk w = Some ws →
  tape (_do_a_step self graph w).2 = tape w ∧
  cursor w < cursor (_do_a_step self graph w).2 ≤ cursor w + 2 ∧
  (walk (_do_a_step self graph w).2 = Some ws ∨
   ((_do_a_step self graph w).1 = Return () ∧
    ∃ nbrs, graph !! current_node ws = Some nbrs ∧
      candidate_at nbrs w ∈ nbrs ∧
      walk (_do_a_step self graph w).2 =
        Some (accepted ws (candidate_at nbrs w)))).
Proof.
  intros Hw. pose proof (step_cases self graph w ws Hw) as Hcases.
  destruct (graph !! current_node ws) as [[|x l]|] eqn:Hn.
  - rewrite Hcases. simpl. split; [done|]. split; [lia|]. by left.
  - destruct (graph !! candidate_at (x :: l) w) as [lc|].
    + destruct (float_truediv _ _) as [quotient|].
      * destruct (float_pow quotient _) as [ratio|].
        -- rewrite Hcases. simpl. split; [done|]. split; [lia|].
           destruct (float_lt _ _); [|by left].
           right. split; [done|]. exists (x :: l). split; [done|].
           split; [|done]. by apply candidate_at_elem.
        -- rewrite Hcases. simpl. split; [done|]. split; [lia|]. by left.
      * rewrite Hcases. simpl. split; [done|]. split; [lia|]. by left.
    + rewrite Hcases. simpl. split; [done|]. split; [lia|]. by left.
  - rewrite Hcases. simpl. split; [done|]. split; [lia|]. by left.
Qed.

Lemma size_add_node (nodes : gset Z) (v : Z) :
  size (nodes ∪ {[ v ]}) ≤ S (size nodes).
Proof.
  rewrite size_union_alt.
  assert (size (({[ v ]} : gset Z) ∖ nodes) ≤ 1) as Hle.
  { rewrite <- (size_singleton (C:=gset Z) v).
    apply subseteq_size, subseteq_difference_l. done. }
  lia.
Qed.

(** X1.  A step that raises has changed neither [_current_node] nor
    [_sampled_nodes] nor the console: the two attributes are assigned on the
    last two lines, after everything that can fail.  The score has been
    drawn, though, so the random stream has moved on. *)
Theorem step_raise_keeps_walk self graph w e w' :
  _do_a_step self graph w = (Raise e, w') →
  walk w' = walk w ∧ stdout w' = stdout w ∧ tape w' = tape w ∧
  cursor w < cursor w'.
Proof.
  intros Hstep. destruct (walk w) as [ws|] eqn:Hw.
  - pose proof (step_cases self graph w ws Hw) as Hcases.
    destruct (graph !! current_node ws) as [[|x l]|];
      [by rewrite Hcases in Hstep| |].
    + destruct (graph !! candidate_at (x :: l) w) as [lc|].
      * destruct (float_truediv _ _) as [quotient|].
        -- destruct (float_pow quotient _) as [ratio|];
             rewrite Hcases in Hstep; [done|].
           injection Hstep as <- <-. simpl. repeat split; try done. lia.
        -- rewrite Hcases in Hstep. injection Hstep as <- <-. simpl.
           repeat split; try done. lia.
      * rewrite Hcases in Hstep. injection Hstep as <- <-. simpl.
        repeat split; try done. lia.
    + rewrite Hcases in Hstep. injection Hstep as <- <-. simpl.
      repeat split; try done. lia.
  - rewrite (step_no_walk self graph w Hw) in Hstep.
    injection Hstep as <- <-. simpl. repeat split; try done. lia.
Qed.

(** X2.  A step from an initialised walk, however it ends, leaves the walk
    as it was or at a neighbour of the current node, which is then the one
    node added to the sampled nodes: their number goes up by at most one. *)
Theorem step_adds_at_most_a_neighbor self graph w ws :
  walk w = Some ws →
  ∃ ws',
    walk (_do_a_step self graph w).2 = Some ws' ∧
    (ws' = ws ∨
     ∃ nbrs, graph !! current_node ws = Some nbrs ∧
       current_node ws' ∈ nbrs ∧
       sampled_nodes ws' = sampled_nodes ws ∪ {[ current_node ws' ]}) ∧
    size (sampled_nodes ws') ≤ S (size (sampled_nodes ws)).
Proof.
  intros Hw.
  destruct (step_shape self graph w ws Hw)
    as (_ & _ & [Hsame|(_ & nbrs & Hn & Hin & Hacc)]).
  - exists ws. split; [done|]. split; [by left|]. lia.
  - exists (accepted ws (candidate_at nbrs w)). split; [done|]. split.
    + right. by exists nbrs.
    + apply size_add_node.
Qed.

End StepMore.

(** ** More on the loop *)

Section LoopMore.
Context {F E : Type} `{!PyFloat F E}.
Implicit Types (self : Sampler E) (graph : Graph) (w : World).

(** What the steps taken below the target keep, the loop keeps. *)
Lemma loop_invariant (I : WalkState → Prop) self graph max :
  (∀ w ws ws',
     walk w = Some ws → I ws →
     (Z.of_nat (size (sampled_nodes ws)) < number_of_nodes self)%Z →
     walk (_do_a_step self graph w).2 = Some ws' → I ws') →
  ∀ fuel s w ws,
    walk w = Some ws → I ws →
    ∃ ws', walk (sample_loop fuel self graph max s w).2 = Some ws' ∧ I ws'.
Proof.
  intros Hstep fuel. induction fuel as [|fuel IH]; intros s w ws Hw HI;
    destruct (Z.lt_ge_cases (Z.of_nat (size (sampled_nodes ws)))
                (number_of_nodes self)) as [Hlt|Hge].
  - rewrite (sample_loop_O _ _ _ _ w ws Hw Hlt). by exists ws.
  - rewrite (sample_loop_done _ _ _ _ _ w ws Hw Hge). by exists ws.
  - rewrite (sample_loop_S _ _ _ _ _ w ws Hw Hlt).
    destruct (step_preserves self graph (said w "starting a step") ws Hw)
      as (ws2 & Hw2 & _).
    pose proof (Hstep (said w "starting a step") ws ws2 Hw HI Hlt Hw2) as HI2.
    destruct (_do_a_step self graph (said w "starting a step"))
      as [[[]|e|] w2]; simpl in Hw2;
      [|exists ws2; simpl; by rewrite Hw2..].
    rewrite Hw2. destruct (_ =? _)%Z.
    + destruct (_ =? _)%Z; [by exists ws2|]. by apply (IH _ _ ws2).
    + by apply (IH _ _ ws2).
  - rewrite (sample_loop_done _ _ _ _ _ w ws Hw Hge). by exists ws.
Qed.

(** How many nodes are sampled when the loop is left. *)
Lemma loop_exit_size fuel self graph max s w ws exit wf :
  walk w = Some ws →
  sample_loop fuel self graph max s w = (Return exit, wf) →
  ∃ wsf, walk wf = Some wsf ∧
    (exit = TargetReached →
     (number_of_nodes self ≤ Z.of_nat (size (sampled_nodes wsf)))%Z) ∧
    (exit = Stalled →
     (Z.of_nat (size (sampled_nodes wsf)) < number_of_nodes self)%Z).
Proof.
  revert s w ws. induction fuel as [|fuel IH]; intros s w ws Hw;
    destruct (Z.lt_ge_cases (Z.of_nat (size (sampled_nodes ws)))
                (number_of_nodes self)) as [Hlt|Hge].
  - by rewrite (sample_loop_O _ _ _ _ w ws Hw Hlt).
  - rewrite (sample_loop_done _ _ _ _ _ w ws Hw Hge).
    intros [= <- <-]. exists ws. by repeat split.
  - rewrite (sample_loop_S _ _ _ _ _ w ws Hw Hlt).
    destruct (_do_a_step self graph (said w "starting a step"))
      as [[[]|e|] w2]; [|done..].
    destruct (walk w2) as [ws2|] eqn:Hw2; [|done].
    destruct (Z.of_nat (size (sampled_nodes ws)) =?
              Z.of_nat (size (sampled_nodes ws2)))%Z eqn:Hsize.
    + destruct (s + 1 =? max)%Z; [|by apply (IH _ _ ws2)].
      intros [= <- <-]. exists ws2. apply Z.eqb_eq in Hsize.
      split; [done|]. split; [done|]. intros _. lia.
    + by apply (IH _ _ ws2).
  - rewrite (sample_loop_done _ _ _ _ _ w ws Hw Hge).
    intros [= <- <-]. exists ws. by repeat split.
Qed.

(** The loop only reads the stream, at most two cells an iteration. *)
Lemma loop_stream fuel self graph max s w :
  tape (sample_loop fuel self graph max s w).2 = tape w ∧
  cursor w ≤ cursor (sample_loop fuel self graph max s w).2
    ≤ cursor w + 2 * fuel.
Proof.
  revert s w. induction fuel as [|fuel IH]; intros s w;
    (destruct (walk w) as [ws|] eqn:Hw;
      [|rewrite (sample_loop_no_walk _ _ _ _ _ w Hw); simpl;
        split; [done|lia]]);
    (destruct (Z.lt_ge_cases (Z.of_nat (size (sampled_nodes ws)))
                (number_of_nodes self)) as [Hlt|Hge];
      [|rewrite (sample_loop_done _ _ _ _ _ w ws Hw Hge); simpl;
        split; [done|lia]]).
  - rewrite (sample_loop_O _ _ _ _ w ws Hw Hlt). simpl. split; [done|lia].
  - rewrite (sample_loop_S _ _ _ _ _ w ws Hw Hlt).
    destruct (step_shape self graph (said w "starting a step") ws Hw)
      as (Htape & Hcur & _).
    destruct (_do_a_step self graph (said w "starting a step"))
      as [[[]|e|] w2]; simpl in Htape, Hcur;
      [|simpl; split; [done|lia]..].
    destruct (walk w2) as [ws2|]; [|simpl; split; [done|lia]].
    destruct (_ =? _)%Z.
    + destruct (_ =? _)%Z; [simpl; split; [done|lia]|].
      destruct (IH (s + 1)%Z (said w2 "no new sample")) as [Ht Hc].
      simpl in Ht, Hc. rewrite Ht. split; [done|lia].
    + destruct (IH 0%Z w2) as [Ht Hc]. rewrite Ht. split; [done|lia].
Qed.

End LoopMore.

(** ** How much is sampled, and where *)

Section SampleMore.
Context {F E : Type} `{!PyFloat F E}.
Implicit Types (self : Sampler E) (graph : Graph) (w : World).

Lemma entry_init self graph start w w0 :
  sample_entry self graph start w = (Return (), w0) →
  _create_initial_node_set self graph start w = (Return (), w0).
Proof. rewrite entry_run. by destruct (_ <? _)%Z. Qed.

Lemma step_size self graph w ws ws' :
  walk w = Some ws → walk (_do_a_step self graph w).2 = Some ws' →
  size (sampled_nodes ws') ≤ S (size (sampled_nodes ws)).
Proof.
  intros Hw Hw'.
  destruct (step_shape self graph w ws Hw)
    as (_ & _ & [Hsame|(_ & nbrs & _ & _ & Hacc)]).
  - rewrite Hsame in Hw'. injection Hw' as <-. lia.
  - rewrite Hacc in Hw'. injection Hw' as <-. apply size_add_node.
Qed.

(** X3.  When [sample] returns, at least one node is sampled and never more
    than were asked for (or than the one initial node).  If the loop ended
    on its condition the target is met, exactly when at least one node was
    asked for; if it ended on the [break], fewer nodes than asked for are
    sampled. *)
Theorem sample_size_bounds fuel self graph max start w g wf :
  sample fuel self graph max start w = (Return g, wf) →
  ∃ w0 exit ws,
    sample_entry self graph start w = (Return (), w0) ∧
    sample_loop fuel self graph max 0 w0 = (Return exit, wf) ∧
    walk wf = Some ws ∧
    1 ≤ size (sampled_nodes ws) ∧
    (Z.of_nat (size (sampled_nodes ws)) ≤ Z.max 1 (number_of_nodes self))%Z ∧
    (exit = TargetReached →
     (number_of_nodes self ≤ Z.of_nat (size (sampled_nodes ws)))%Z ∧
     ((1 ≤ number_of_nodes self)%Z →
      Z.of_nat (size (sampled_nodes ws)) = number_of_nodes self)) ∧
    (exit = Stalled →
     (Z.of_nat (size (sampled_nodes ws)) < number_of_nodes self)%Z).
Proof.
  rewrite sample_run.
  destruct (sample_entry self graph start w) as [[[]|?|] w0] eqn:Hentry;
    [|done..].
  destruct (sample_loop fuel self graph max 0 w0) as [[exit|?|] wf']
    eqn:Hloop; [|done..].
  destruct (walk wf') as [ws|] eqn:Hws; [|done].
  intros [= <- <-]. exists w0, exit, ws.
  destruct (init_post self graph start w w0 (entry_init _ _ _ _ _ Hentry))
    as (v & Hw0 & _).
  destruct (loop_preserves fuel self graph max 0 w0 _ Hw0)
    as (ws1 & Hws1 & Hsub & _).
  rewrite Hloop in Hws1. simpl in Hws1. rewrite Hws in Hws1.
  injection Hws1 as <-.
  apply subseteq_size in Hsub. cbn [sampled_nodes] in Hsub.
  rewrite size_singleton in Hsub.
  destruct (loop_invariant
    (λ x, (Z.of_nat (size (sampled_nodes x))
           ≤ Z.max 1 (number_of_nodes self))%Z) self graph max)
    with (fuel := fuel) (s := 0%Z) (w := w0) (ws := mkWalk v {[ v ]})
    as (ws2 & Hws2 & Hbound).
  { intros w1 x x' Hx _ Hlt Hx'.
    pose proof (step_size self graph w1 x x' Hx Hx'). lia. }
  { done. }
  { cbn [sampled_nodes]. rewrite size_singleton. lia. }
  rewrite Hloop in Hws2. simpl in Hws2. rewrite Hws in Hws2.
  injection Hws2 as <-.
  destruct (loop_exit_size fuel self graph max 0 w0 _ exit wf' Hw0 Hloop)
    as (ws3 & Hws3 & Htarget & Hstalled).
  rewrite Hws in Hws3. injection Hws3 as <-.
  split; [done|]. split; [done|]. split; [done|]. split; [done|].
  split; [done|]. split; [|done].
  intros Hexit. specialize (Htarget Hexit). split; [done|]. lia.
Qed.

Lemma walk_edge_mono graph (nodes nodes' : gset Z) a b :
  nodes ⊆ nodes' → walk_edge graph nodes a b → walk_edge graph nodes' a b.
Proof. intros Hsub (Ha & Hb & Hab). repeat split; auto. Qed.

(** X4.  The sampled nodes hang together, as the docstring of the class
    says of the sampled graph: at every number of iterations each sampled
    node is reached from the initial node along edges of the graph between
    sampled nodes. *)
Theorem sampled_nodes_connected fuel self graph max start w w0 :
  sample_entry self graph start w = (Return (), w0) →
  ∃ v0 ws,
    walk w0 = Some (mkWalk v0 {[ v0 ]}) ∧
    walk (sample fuel self graph max start w).2 = Some ws ∧
    ∀ v, v ∈ sampled_nodes ws →
      rtc (walk_edge graph (sampled_nodes ws)) v0 v.
Proof.
  intros Hentry.
  destruct (init_post self graph start w w0 (entry_init _ _ _ _ _ Hentry))
    as (v0 & Hw0 & _).
  rewrite (sample_world _ _ _ _ _ _ _ Hentry).
  destruct (loop_invariant
    (λ x, current_node x ∈ sampled_nodes x ∧
          ∀ v, v ∈ sampled_nodes x →
            rtc (walk_edge graph (sampled_nodes x)) v0 v) self graph max)
    with (fuel := fuel) (s := 0%Z) (w := w0) (ws := mkWalk v0 {[ v0 ]})
    as (ws & Hws & _ & Hconn).
  - intros w1 x x' Hx [Hcur Hreach] _ Hx'.
    destruct (step_shape self graph w1 x Hx)
      as (_ & _ & [Hsame|(_ & nbrs & Hn & Hin & Hacc)]).
    { rewrite Hsame in Hx'. by injection Hx' as <-. }
    rewrite Hacc in Hx'. injection Hx' as <-. unfold accepted. simpl.
    set (c := candidate_at nbrs w1) in *.
    assert (sampled_nodes x ⊆ sampled_nodes x ∪ {[ c ]}) as Hsub
      by apply union_subseteq_l.
    assert (c ∈ sampled_nodes x ∪ {[ c ]}) as Hc
      by (apply elem_of_union_r; by apply elem_of_singleton).
    split; [done|]. intros v [Hv|Hv]%elem_of_union.
    + eapply rtc_subrel; [|by apply Hreach].
      intros a b. by apply walk_edge_mono.
    + apply elem_of_singleton in Hv as ->.
      eapply rtc_r.
      * eapply rtc_subrel; [|by apply (Hreach (current_node x))].
        intros a b. by apply walk_edge_mono.
      * split; [by apply Hsub|]. split; [done|]. by exists nbrs.
  - done.
  - simpl. split; [by apply elem_of_singleton|].
    intros v ->%elem_of_singleton. apply rtc_refl.
  - by exists v0, ws.
Qed.

Lemma ratios_defined_edge (a : E) graph u v lu lv :
  ratios_defined a graph →
  graph !! u = Some lu → v ∈ lu → graph !! v = Some lv →
  is_Some (acceptance_ratio a (length lu) (length lv)).
Proof.
  intros Hr Hu Hv Hlv. specialize (Hr u lu Hu). simpl in Hr.
  rewrite Forall_forall in Hr. specialize (Hr v Hv). by rewrite Hlv in Hr.
Qed.

Lemma step_in_graph self graph w ws :
  undirected graph → ratios_defined (alpha self) graph →
  walk w = Some ws → is_Some (graph !! current_node ws) →
  (_do_a_step self graph w).1 = Return () ∧
  ∀ ws', walk (_do_a_step self graph w).2 = Some ws' →
    is_Some (graph !! current_node ws').
Proof.
  intros Hg Hratios Hw [nbrs Hn].
  pose proof (step_cases self graph w ws Hw) as Hcases. rewrite Hn in Hcases.
  destruct nbrs as [|x l].
  { rewrite Hcases. simpl. split; [done|]. rewrite Hw.
    intros ws' [= <-]. by eexists. }
  pose proof (candidate_at_elem (x :: l) w ltac:(done)) as Hin.
  destruct (undirected_back graph _ _ _ Hg Hn Hin) as (lc & Hlc & _).
  destruct (ratios_defined_edge (alpha self) graph _ _ _ _ Hratios Hn Hin Hlc)
    as [ratio Hr].
  unfold acceptance_ratio in Hr. rewrite Hlc in Hcases.
  destruct (float_truediv _ _) as [quotient|]; [|done]. simpl in Hr.
  rewrite Hr in Hcases. rewrite Hcases. simpl. split; [done|].
  intros ws' [= <-]. destruct (float_lt _ _); simpl; by eexists.
Qed.

Lemma loop_never_raises self graph max fuel :
  undirected graph → ratios_defined (alpha self) graph →
  ∀ s w ws, walk w = Some ws → is_Some (graph !! current_node ws) →
    ∀ e, (sample_loop fuel self graph max s w).1 ≠ Raise e.
Proof.
  intros Hg Hratios.
  induction fuel as [|fuel IH]; intros s w ws Hw Hcur e;
    destruct (Z.lt_ge_cases (Z.of_nat (size (sampled_nodes ws)))
                (number_of_nodes self)) as [Hlt|Hge].
  - by rewrite (sample_loop_O _ _ _ _ w ws Hw Hlt).
  - by rewrite (sample_loop_done _ _ _ _ _ w ws Hw Hge).
  - rewrite (sample_loop_S _ _ _ _ _ w ws Hw Hlt).
    destruct (step_in_graph self graph (said w "starting a step") ws
                Hg Hratios Hw Hcur) as [Hret Hnext].
    destruct (step_preserves self graph (said w "starting a step") ws Hw)
      as (ws2 & Hw2 & _).
    destruct (_do_a_step self graph (said w "starting a step"))
      as [[[]|e'|] w2]; simpl in Hret, Hnext, Hw2; [|done..].
    rewrite Hw2. specialize (Hnext ws2 Hw2).
    destruct (_ =? _)%Z.
    + destruct (_ =? _)%Z; [done|]. by apply (IH _ _ ws2).
    + by apply (IH _ _ ws2).
  - by rewrite (sample_loop_done _ _ _ _ _ w ws Hw Hge).
Qed.

(** X5.  On an undirected graph whose nodes are the indices
    [0 .. node_count - 1], with an exponent for which the power of the
    degree ratio is in range along every edge and a positive
    [max_stucking_iter], a call that got past its checks returns a graph: no
    step raises, and the loop ends within
    [number_of_nodes * max_stucking_iter] iterations. *)
Theorem sample_returns_on_indexed_graph self graph max start w w0 :
  undirected graph → indexed graph → ratios_defined (alpha self) graph →
  (0 < max)%Z →
  sample_entry self graph start w = (Return (), w0) →
  ∃ g wf,
    sample (Z.to_nat (number_of_nodes self * max)) self graph max start w
      = (Return g, wf).
Proof.
  intros Hg Hidx Hratios Hmax Hentry.
  destruct (init_post self graph start w w0 (entry_init _ _ _ _ _ Hentry))
    as (v & Hw0 & Hrange & _).
  assert (is_Some (graph !! v)) as Hv.
  { unfold indexed in Hidx. rewrite Forall_forall in Hidx.
    apply Hidx, elem_of_seqZ. lia. }
  rewrite sample_run, Hentry.
  pose proof (loop_never_raises self graph max
                (Z.to_nat (number_of_nodes self * max)) Hg Hratios
                0%Z w0 _ Hw0 Hv)
    as Hnoraise.
  pose proof (loop_terminates (Z.to_nat (number_of_nodes self * max))
                self graph max 0 w0) as Hterm.
  destruct (loop_preserves (Z.to_nat (number_of_nodes self * max))
              self graph max 0 w0 _ Hw0) as (ws & Hws & _).
  destruct (sample_loop _ self graph max 0 w0) as [[exit|e|] wf].
  - simpl in Hws. rewrite Hws. by eexists _, _.
  - by destruct (Hnoraise e).
  - exfalso. apply Hterm; [lia| |done]. intros ws0 Hws0.
    rewrite Hw0 in Hws0. injection Hws0 as <-. cbn [sampled_nodes].
    rewrite size_singleton. nia.
Qed.

End SampleMore.

(** ** A walk that cannot move, and a counter that cannot be met *)

Section Stuck.
Context {F E : Type} `{!PyFloat F E}.
Implicit Types (self : Sampler E) (graph : Graph) (w : World).

Lemma stuck_world_O w : stuck_world w 0 = w.
Proof.
  destruct w as [t c o wk]. unfold stuck_world, stuck_console. simpl.
  by rewrite Nat.add_0_r, app_nil_r.
Qed.

(** One more iteration at a node without neighbours. *)
Lemma stuck_world_S w ws k :
  walk w = Some ws →
  stuck_world
    (said (mkWorld (tape w) (S (cursor w))
             (stdout (said w "starting a step") ++ ["no neighbors"])
             (Some ws)) "no new sample") k
  = stuck_world w (S k).
Proof.
  intros Hw. unfold stuck_world, stuck_console, said. simpl. rewrite Hw.
  f_equal; [lia|]. by rewrite <- !(assoc_L (++)).
Qed.

Lemma stuck_iteration self graph w ws :
  walk w = Some ws → graph !! current_node ws = Some [] →
  _do_a_step self graph (said w "starting a step") =
    (Return (),
     mkWorld (tape w) (S (cursor w))
       (stdout (said w "starting a step") ++ ["no neighbors"]) (Some ws)).
Proof.
  intros Hw Hn.
  by rewrite (step_without_neighbors self graph (said w "starting a step")
                ws Hw Hn).
Qed.

(** At a node without neighbours the loop ends on the [break] after as
    many iterations as the counter is short of [max_stucking_iter]. *)
Lemma stuck_loop_stalls self graph max k :
  ∀ fuel s w ws,
    walk w = Some ws → graph !! current_node ws = Some [] →
    (Z.of_nat (size (sampled_nodes ws)) < number_of_nodes self)%Z →
    (s + Z.of_nat (S k))%Z = max → S k ≤ fuel →
    sample_loop fuel self graph max s w =
      (Return Stalled, stuck_world w (S k)).
Proof.
  induction k as [|k IH]; intros fuel s w ws Hw Hn Hlt Hmax Hfuel;
    (destruct fuel as [|fuel]; [lia|]);
    rewrite (sample_loop_S _ _ _ _ _ w ws Hw Hlt),
      (stuck_iteration self graph w ws Hw Hn);
    cbn [walk]; rewrite Z.eqb_refl.
  - rewrite (proj2 (Z.eqb_eq _ _)) by lia.
    by rewrite <- (stuck_world_S w ws 0 Hw), stuck_world_O.
  - rewrite (proj2 (Z.eqb_neq _ _)) by lia.
    rewrite <- (stuck_world_S w ws (S k) Hw).
    apply (IH fuel (s + 1)%Z _ ws); try done; lia.
Qed.

(** With a [max_stucking_iter] of 0 or less it runs on. *)
Lemma stuck_loop_runs_on self graph max fuel :
  (max ≤ 0)%Z →
  ∀ s w ws,
    (0 ≤ s)%Z →
    walk w = Some ws → graph !! current_node ws = Some [] →
    (Z.of_nat (size (sampled_nodes ws)) < number_of_nodes self)%Z →
    sample_loop fuel self graph max s w = (OutOfFuel, stuck_world w fuel).
Proof.
  intros Hmax. induction fuel as [|fuel IH]; intros s w ws Hs Hw Hn Hlt.
  - by rewrite (sample_loop_O _ _ _ _ w ws Hw Hlt), stuck_world_O.
  - rewrite (sample_loop_S _ _ _ _ _ w ws Hw Hlt),
      (stuck_iteration self graph w ws Hw Hn).
    cbn [walk]. rewrite Z.eqb_refl.
    rewrite (proj2 (Z.eqb_neq _ _)) by lia.
    rewrite <- (stuck_world_S w ws fuel Hw).
    apply (IH (s + 1)%Z _ ws); try done; lia.
Qed.

Lemma loop_never_stalled self graph max fuel :
  (max ≤ 0)%Z →
  ∀ s w, (0 ≤ s)%Z →
    (sample_loop fuel self graph max s w).1 ≠ Return Stalled.
Proof.
  intros Hmax. induction fuel as [|fuel IH]; intros s w Hs;
    (destruct (walk w) as [ws|] eqn:Hw;
      [|by rewrite (sample_loop_no_walk _ _ _ _ _ w Hw)]);
    (destruct (Z.lt_ge_cases (Z.of_nat (size (sampled_nodes ws)))
                (number_of_nodes self)) as [Hlt|Hge];
      [|by rewrite (sample_loop_done _ _ _ _ _ w ws Hw Hge)]).
  - by rewrite (sample_loop_O _ _ _ _ w ws Hw Hlt).
  - rewrite (sample_loop_S _ _ _ _ _ w ws Hw Hlt).
    destruct (_do_a_step self graph (said w "starting a step"))
      as [[[]|e|] w2]; [|done..].
    destruct (walk w2) as [ws2|]; [|done].
    destruct (Z.of_nat (size (sampled_nodes ws)) =?
              Z.of_nat (size (sampled_nodes ws2)))%Z.
    + rewrite (proj2 (Z.eqb_neq _ _)) by lia. apply IH. lia.
    + by apply IH.
Qed.

Lemma start_entry self graph v w :
  (0 ≤ v < get_number_of_nodes graph)%Z →
  (number_of_nodes self ≤ get_number_of_nodes graph)%Z →
  sample_entry self graph (Some v) w =
    (Return (),
     mkWorld (tape w) (cursor w) (stdout w) (Some (mkWalk v {[ v ]}))).
Proof.
  intros Hv Hn. rewrite entry_run, init_explicit.
  rewrite (proj2 (Z.ltb_ge _ _)) by lia.
  rewrite (proj2 (Z.leb_le _ _)) by lia.
  by rewrite (proj2 (Z.ltb_lt _ _)) by lia.
Qed.

(** X6.  Started at a node without neighbours, with at least two nodes
    asked for and a positive [max_stucking_iter], [sample] takes exactly
    [max_stucking_iter] steps, each of which draws its score and prints that
    there are no neighbours, and returns the subgraph of the start node
    alone. *)
Theorem isolated_start_stalls fuel self graph max v w :
  graph !! v = Some [] →
  (0 ≤ v < get_number_of_nodes graph)%Z →
  (2 ≤ number_of_nodes self ≤ get_number_of_nodes graph)%Z →
  (0 < max)%Z → Z.to_nat max ≤ fuel →
  sample fuel self graph max (Some v) w =
    (Return (get_subgraph graph {[ v ]}),
     mkWorld (tape w) (cursor w + Z.to_nat max)
       (stdout w ++ stuck_console (Z.to_nat max))
       (Some (mkWalk v {[ v ]}))).
Proof.
  intros Hn Hv Hnodes Hmax Hfuel.
  rewrite sample_run, (start_entry self graph v w) by lia.
  destruct (Z.to_nat max) as [|k] eqn:Hk; [lia|].
  rewrite (stuck_loop_stalls self graph max k fuel 0%Z _
             (mkWalk v {[ v ]})); try done.
  - cbn [sampled_nodes]. rewrite size_singleton. lia.
  - lia.
Qed.

(** X7.  With a [max_stucking_iter] of 0 or less the counter, which is
    compared after it has been incremented, never equals it: the loop is
    never left on the [break], and [sample] returns only with at least the
    number of nodes asked for. *)
Theorem nonpositive_max_never_stalls fuel self graph max start w g wf :
  (max ≤ 0)%Z →
  sample fuel self graph max start w = (Return g, wf) →
  ∃ ws, walk wf = Some ws ∧
    (number_of_nodes self ≤ Z.of_nat (size (sampled_nodes ws)))%Z.
Proof.
  intros Hmax. rewrite sample_run.
  destruct (sample_entry self graph start w) as [[[]|?|] w0] eqn:Hentry;
    [|done..].
  pose proof (loop_never_stalled self graph max fuel Hmax 0%Z w0
                ltac:(done)) as Hnever.
  destruct (sample_loop fuel self graph max 0 w0) as [[exit|?|] wf']
    eqn:Hloop; [|done..].
  destruct (walk wf') as [ws|] eqn:Hws; [|done].
  intros [= <- <-]. exists ws. split; [done|].
  destruct (init_post self graph start w w0) as (v & Hw0 & _).
  { rewrite entry_run in Hentry. by destruct (_ <? _)%Z. }
  destruct (loop_exit_size fuel self graph max 0 w0 _ exit wf' Hw0 Hloop)
    as (ws' & Hws' & Htarget & _).
  rewrite Hws in Hws'. injection Hws' as <-.
  apply Htarget. by destruct exit.
Qed.

(** X8.  Started at a node without neighbours, with at least two nodes
    asked for and a [max_stucking_iter] of 0 or less, [sample] does not
    end: whatever the fuel, all of it is used, one step and one draw for
    each unit. *)
Theorem isolated_start_runs_forever fuel self graph max v w :
  graph !! v = Some [] →
  (0 ≤ v < get_number_of_nodes graph)%Z →
  (2 ≤ number_of_nodes self ≤ get_number_of_nodes graph)%Z →
  (max ≤ 0)%Z →
  sample fuel self graph max (Some v) w =
    (OutOfFuel,
     mkWorld (tape w) (cursor w + fuel) (stdout w ++ stuck_console fuel)
       (Some (mkWalk v {[ v ]}))).
Proof.
  intros Hn Hv Hnodes Hmax.
  rewrite sample_run, (start_entry self graph v w) by lia.
  rewrite (stuck_loop_runs_on self graph max fuel Hmax 0%Z _
             (mkWalk v {[ v ]})); try done.
  cbn [sampled_nodes]. rewrite size_singleton. lia.
Qed.

End Stuck.

(** ** Initialisation, and what a call takes from the one before *)

Section Entry.
Context {F E : Type} `{!PyFloat F E}.
Implicit Types (self : Sampler E) (graph : Graph) (w : World).

(** X9.  Without a start node, on a graph that has nodes,
    [_create_initial_node_set] draws once and makes a node of the range
    [0 <= node < node_count] the current node and the only sampled one;
    nothing is printed. *)
Theorem random_start_in_range self graph w :
  (0 < get_number_of_nodes graph)%Z →
  ∃ node,
    (0 ≤ node < get_number_of_nodes graph)%Z ∧
    _create_initial_node_set self graph None w =
      (Return (),
       mkWorld (tape w) (S (cursor w)) (stdout w)
         (Some (mkWalk node {[ node ]}))).
Proof.
  intros Hn. unfold _create_initial_node_set.
  assert (seqZ 0 (get_number_of_nodes graph) ≠ []) as Hne.
  { rewrite seqZ_cons by done. discriminate. }
  rewrite (run_bind _ _ _ _ _ (run_choice _ w Hne)).
  assert (nth (N.to_nat (tape w (cursor w))
               mod length (seqZ 0 (get_number_of_nodes graph)))
            (seqZ 0 (get_number_of_nodes graph)) 0%Z
          ∈ seqZ 0 (get_number_of_nodes graph)) as Hin.
  { apply list_elem_of_In, nth_In, Nat.mod_upper_bound.
    by destruct (seqZ 0 (get_number_of_nodes graph)). }
  revert Hin. generalize (nth (N.to_nat (tape w (cursor w))
    mod length (seqZ 0 (get_number_of_nodes graph)))
    (seqZ 0 (get_number_of_nodes graph)) 0%Z).
  intros node Hin. apply elem_of_seqZ in Hin. exists node. split; [lia|done].
Qed.

(** X10.  On a graph without nodes [_create_initial_node_set] always
    raises and changes nothing: the out-of-range [ValueError] for any start
    node given, and [IndexError], from the choice in an empty range, for
    none. *)
Theorem no_start_in_empty_graph self graph start w :
  get_number_of_nodes graph = 0%Z →
  _create_initial_node_set self graph start w =
    (Raise (match start with
            | Some _ => ValueError "Starting node index is out of range."
            | None => IndexError
            end), w).
Proof.
  intros Hn. destruct start as [s|].
  - rewrite init_explicit, Hn.
    destruct (0 <=? s)%Z eqn:H0; [|done].
    apply Z.leb_le in H0. by rewrite (proj2 (Z.ltb_ge _ _)) by lia.
  - unfold _create_initial_node_set. by rewrite Hn.
Qed.

Lemma init_forgets self graph start t c o wk1 wk2 :
  (∃ w0,
     _create_initial_node_set self graph start (mkWorld t c o wk1)
       = (Return (), w0) ∧
     _create_initial_node_set self graph start (mkWorld t c o wk2)
       = (Return (), w0)) ∨
  (∃ e,
     _create_initial_node_set self graph start (mkWorld t c o wk1)
       = (Raise e, mkWorld t c o wk1) ∧
     _create_initial_node_set self graph start (mkWorld t c o wk2)
       = (Raise e, mkWorld t c o wk2)).
Proof.
  destruct start as [s|].
  - rewrite !init_explicit. destruct (_ && _).
    + left. by eexists.
    + right. by eexists.
  - unfold _create_initial_node_set.
    destruct (seqZ 0 (get_number_of_nodes graph)) as [|x l] eqn:Hseq.
    + right. by exists IndexError.
    + left.
      rewrite (run_bind _ _ _ _ _
                 (run_choice (x :: l) (mkWorld t c o wk1) ltac:(done))).
      rewrite (run_bind _ _ _ _ _
                 (run_choice (x :: l) (mkWorld t c o wk2) ltac:(done))).
      by eexists.
Qed.

(** X11.  [sample] starts from scratch: called in two worlds that differ
    only in the [_current_node] and [_sampled_nodes] an earlier call left,
    it ends the same way, and with the same walk unless it raised in its
    checks, before the walk is set up, leaving each as it was. *)
Theorem sample_forgets_previous_walk fuel self graph max start t c o wk1 wk2 :
  (sample fuel self graph max start (mkWorld t c o wk1)).1 =
  (sample fuel self graph max start (mkWorld t c o wk2)).1 ∧
  (sample fuel self graph max start (mkWorld t c o wk1)).2 =
  (sample fuel self graph max start (mkWorld t c o wk2)).2 ∨
  ∃ e,
    sample fuel self graph max start (mkWorld t c o wk1)
      = (Raise e, mkWorld t c o wk1) ∧
    sample fuel self graph max start (mkWorld t c o wk2)
      = (Raise e, mkWorld t c o wk2).
Proof.
  rewrite !sample_run, !entry_run.
  destruct (_ <? _)%Z; [right; by eexists|].
  destruct (init_forgets self graph start t c o wk1 wk2)
    as [(w0 & -> & ->)|(e & -> & ->)].
  - by left.
  - right. by eexists.
Qed.

Lemma init_stream self graph start w :
  tape (_create_initial_node_set self graph start w).2 = tape w ∧
  cursor w ≤ cursor (_create_initial_node_set self graph start w).2
    ≤ cursor w + 1.
Proof.
  destruct start as [s|].
  - rewrite init_explicit. destruct (_ && _); simpl; split; done || lia.
  - unfold _create_initial_node_set.
    destruct (seqZ 0 (get_number_of_nodes graph)) as [|x l] eqn:Hseq.
    + simpl. split; done || lia.
    + rewrite (run_bind _ _ _ _ _ (run_choice (x :: l) w ltac:(done))).
      simpl. split; done || lia.
Qed.

(** X12.  [sample] only reads the random stream, forwards: it does not
    seed it again, and it draws at most one number for the initial node and
    two for every iteration of its loop. *)
Theorem sample_draws_bounded fuel self graph max start w :
  tape (sample fuel self graph max start w).2 = tape w ∧
  cursor w ≤ cursor (sample fuel self graph max start w).2
    ≤ cursor w + 1 + 2 * fuel.
Proof.
  rewrite sample_run, entry_run.
  destruct (_ <? _)%Z; [simpl; split; done || lia|].
  destruct (init_stream self graph start w) as [Ht Hc].
  destruct (_create_initial_node_set self graph start w) as [[[]|?|] w0];
    simpl in Ht, Hc; [|simpl; split; done || lia..].
  destruct (loop_stream fuel self graph max 0 w0) as [Ht' Hc'].
  destruct (sample_loop fuel self graph max 0 w0) as [[exit|?|] wf];
    simpl in Ht', Hc'; [|simpl; split; congruence || lia..].
  destruct (walk wf); simpl; split; congruence || lia.
Qed.

End Entry.

(** ** More runs on the sample inputs *)

Lemma step_raise_keeps_walk_witness :
  _do_a_step sampler3 path_graph off_graph
    = (Raise NetworkXError, advance off_graph) ∧
  walk (advance off_graph) = walk off_graph ∧
  stdout (advance off_graph) = stdout off_graph ∧
  tape (advance off_graph) = tape off_graph ∧
  cursor off_graph < cursor (advance off_graph).
Proof.
  assert (_do_a_step sampler3 path_graph off_graph
          = (Raise NetworkXError, advance off_graph)) as Hstep
    by (vm_compute; reflexivity).
  split; [exact Hstep|].
  exact (step_raise_keeps_walk (F:=Q) sampler3 path_graph off_graph
           NetworkXError (advance off_graph) Hstep).
Defined.

Lemma step_adds_at_most_a_neighbor_witness :
  ∃ ws',
    walk (_do_a_step sampler3 path_graph at_one).2 = Some ws' ∧
    (ws' = mkWalk 1 {[ 1%Z ]} ∨
     ∃ nbrs, path_graph !! 1%Z = Some nbrs ∧
       current_node ws' ∈ nbrs ∧
       sampled_nodes ws' = {[ 1%Z ]} ∪ {[ current_node ws' ]}) ∧
    size (sampled_nodes ws') ≤ 2.
Proof.
  exact (step_adds_at_most_a_neighbor (F:=Q) sampler3 path_graph at_one
           (mkWalk 1 {[ 1%Z ]}) eq_refl).
Defined.

Lemma sample_size_bounds_witness :
  let wf := mkWorld counting_tape 4 ["starting a step"; "starting a step"]
              (Some (mkWalk 2 {[ 0%Z; 1%Z; 2%Z ]})) in
  ∃ w0 exit ws,
    sample_entry sampler3 path_graph (Some 0%Z) (fresh_world counting_tape)
      = (Return (), w0) ∧
    sample_loop 100 sampler3 path_graph 50 0 w0 = (Return exit, wf) ∧
    walk wf = Some ws ∧
    1 ≤ size (sampled_nodes ws) ∧
    (Z.of_nat (size (sampled_nodes ws))
     ≤ Z.max 1 (number_of_nodes sampler3))%Z ∧
    (exit = TargetReached →
     (number_of_nodes sampler3 ≤ Z.of_nat (size (sampled_nodes ws)))%Z ∧
     ((1 ≤ number_of_nodes sampler3)%Z →
      Z.of_nat (size (sampled_nodes ws)) = number_of_nodes sampler3)) ∧
    (exit = Stalled →
     (Z.of_nat (size (sampled_nodes ws)) < number_of_nodes sampler3)%Z).
Proof.
  intros wf.
  assert (sample 100 sampler3 path_graph 50 (Some 0%Z)
            (fresh_world counting_tape)
          = (Return (get_subgraph path_graph {[ 0%Z; 1%Z; 2%Z ]}), wf))
    as Hret by (vm_compute; reflexivity).
  exact (sample_size_bounds (F:=Q) 100 sampler3 path_graph 50 (Some 0%Z)
           (fresh_world counting_tape) _ wf Hret).
Defined.

Lemma sampled_nodes_connected_witness :
  ∃ v0 ws,
    walk (world_at counting_tape 0 {[ 0%Z ]}) = Some (mkWalk v0 {[ v0 ]}) ∧
    walk (sample 100 sampler3 path_graph 50 (Some 0%Z)
            (fresh_world counting_tape)).2 = Some ws ∧
    ∀ v, v ∈ sampled_nodes ws →
      rtc (walk_edge path_graph (sampled_nodes ws)) v0 v.
Proof.
  assert (sample_entry sampler3 path_graph (Some 0%Z)
            (fresh_world counting_tape) =
          (Return (), world_at counting_tape 0 {[ 0%Z ]})) as Hentry
    by (vm_compute; reflexivity).
  exact (sampled_nodes_connected (F:=Q) 100 sampler3 path_graph 50
           (Some 0%Z) (fresh_world counting_tape)
           (world_at counting_tape 0 {[ 0%Z ]}) Hentry).
Defined.

Lemma sample_returns_on_indexed_graph_witness :
  undirected path_graph ∧ indexed path_graph ∧
  ratios_defined (F:=Q) (alpha sampler3) path_graph ∧
  ∃ g wf,
    sample (Z.to_nat (number_of_nodes sampler3 * 50)) sampler3 path_graph 50
      (Some 0%Z) (fresh_world counting_tape) = (Return g, wf).
Proof.
  assert (undirected path_graph) as Hg
    by (apply (bool_decide_unpack _); vm_compute; exact I).
  assert (indexed path_graph) as Hidx
    by (apply (bool_decide_unpack _); vm_compute; exact I).
  assert (ratios_defined (F:=Q) (alpha sampler3) path_graph) as Hratios
    by (apply (bool_decide_unpack _); vm_compute; exact I).
  assert (sample_entry sampler3 path_graph (Some 0%Z)
            (fresh_world counting_tape) =
          (Return (), world_at counting_tape 0 {[ 0%Z ]})) as Hentry
    by (vm_compute; reflexivity).
  split; [exact Hg|]. split; [exact Hidx|]. split; [exact Hratios|].
  exact (sample_returns_on_indexed_graph (F:=Q) sampler3 path_graph 50
           (Some 0%Z) (fresh_world counting_tape)
           (world_at counting_tape 0 {[ 0%Z ]})
           Hg Hidx Hratios ltac:(lia) Hentry).
Defined.

(** With an exponent of 2000 the ratio is not defined on the path: a run
    from node 1 raises at its first step. *)
Example steep_sample_raises :
  ¬ ratios_defined (F:=Q) (alpha sampler_steep) path_graph ∧
  sample 10 sampler_steep path_graph 50 (Some 1%Z)
    (fresh_world (tape_of [half; 1%N])) =
  (Raise OverflowError,
   mkWorld (tape_of [half; 1%N]) 2 ["starting a step"]
     (Some (mkWalk 1 {[ 1%Z ]}))).
Proof.
  split; [|vm_compute; reflexivity].
  apply (bool_decide_eq_false_1 _). vm_compute. reflexivity.
Qed.

Lemma isolated_start_stalls_witness :
  sample 5 sampler3 path_graph 2 (Some 3%Z) (fresh_world counting_tape) =
    (Return (get_subgraph path_graph {[ 3%Z ]}),
     mkWorld counting_tape 2
       ["starting a step"; "no neighbors"; "no new sample";
        "starting a step"; "no neighbors"; "no new sample"]
       (Some (mkWalk 3 {[ 3%Z ]}))).
Proof.
  assert (path_graph !! 3%Z = Some []) as Hn by (vm_compute; reflexivity).
  assert (0 ≤ 3 < get_number_of_nodes path_graph)%Z as Hv
    by (vm_compute; split; [discriminate|reflexivity]).
  assert (2 ≤ number_of_nodes sampler3 ≤ get_number_of_nodes path_graph)%Z
    as Hnodes by (vm_compute; split; discriminate).
  exact (isolated_start_stalls (F:=Q) 5 sampler3 path_graph 2 3
           (fresh_world counting_tape) Hn Hv Hnodes ltac:(lia) ltac:(simpl; lia)).
Defined.

Lemma nonpositive_max_never_stalls_witness :
  ∃ ws,
    walk (mkWorld counting_tape 4 ["starting a step"; "starting a step"]
            (Some (mkWalk 2 {[ 0%Z; 1%Z; 2%Z ]}))) = Some ws ∧
    (number_of_nodes sampler3 ≤ Z.of_nat (size (sampled_nodes ws)))%Z.
Proof.
  assert (sample 100 sampler3 path_graph 0 (Some 0%Z)
            (fresh_world counting_tape)
          = (Return (get_subgraph path_graph {[ 0%Z; 1%Z; 2%Z ]}),
             mkWorld counting_tape 4 ["starting a step"; "starting a step"]
               (Some (mkWalk 2 {[ 0%Z; 1%Z; 2%Z ]}))))
    as Hret by (vm_compute; reflexivity).
  exact (nonpositive_max_never_stalls (F:=Q) 100 sampler3 path_graph 0
           (Some 0%Z) (fresh_world counting_tape) _ _ ltac:(lia) Hret).
Defined.

Lemma isolated_start_runs_forever_witness :
  sample 2 sampler3 path_graph 0 (Some 3%Z) (fresh_world counting_tape) =
    (OutOfFuel,
     mkWorld counting_tape 2
       ["starting a step"; "no neighbors"; "no new sample";
        "starting a step"; "no neighbors"; "no new sample"]
       (Some (mkWalk 3 {[ 3%Z ]}))).
Proof.
  assert (path_graph !! 3%Z = Some []) as Hn by (vm_compute; reflexivity).
  assert (0 ≤ 3 < get_number_of_nodes path_graph)%Z as Hv
    by (vm_compute; split; [discriminate|reflexivity]).
  assert (2 ≤ number_of_nodes sampler3 ≤ get_number_of_nodes path_graph)%Z
    as Hnodes by (vm_compute; split; discriminate).
  exact (isolated_start_runs_forever (F:=Q) 2 sampler3 path_graph 0 3
           (fresh_world counting_tape) Hn Hv Hnodes ltac:(lia)).
Defined.

Lemma random_start_in_range_witness :
  ∃ node,
    (0 ≤ node < get_number_of_nodes path_graph)%Z ∧
    _create_initial_node_set sampler3 path_graph None
      (fresh_world counting_tape) =
      (Return (),
       mkWorld counting_tape 1 [] (Some (mkWalk node {[ node ]}))).
Proof.
  assert (0 < get_number_of_nodes path_graph)%Z as Hn
    by (vm_compute; reflexivity).
  exact (random_start_in_range sampler3 path_graph
           (fresh_world counting_tape) Hn).
Defined.

Lemma no_start_in_empty_graph_witness :
  _create_initial_node_set sampler3 ∅ None (fresh_world counting_tape)
    = (Raise IndexError, fresh_world counting_tape) ∧
  _create_initial_node_set sampler3 ∅ (Some 0%Z) (fresh_world counting_tape)
    = (Raise (ValueError "Starting node index is out of range."),
       fresh_world counting_tape).
Proof.
  assert (get_number_of_nodes ∅ = 0%Z) as Hn by (vm_compute; reflexivity).
  split.
  - exact (no_start_in_empty_graph sampler3 ∅ None
             (fresh_world counting_tape) Hn).
  - exact (no_start_in_empty_graph sampler3 ∅ (Some 0%Z)
             (fresh_world counting_tape) Hn).
Defined.
